(** * pyspread: the chart dialog and the brush style table

    A shallow embedding of [src/gui/_chart_dialog.py] and of the
    [brush_styles] table of [config.py].

    Text is modelled as sequences of 8-bit characters; the scanner
    [parse_dict_strings] works on [list ascii] (it indexes and slices its
    argument), the dialog on [string] (its dictionaries are keyed by string
    literals).  Python dictionaries are [gmap]s, dictionary objects that
    are shared between widgets live in a heap and are referred to by
    location. *)

From Stdlib Require Import ZArith Ascii String List Lia Sorted.
From stdpp Require Import gmap strings list fin_maps.

Local Open Scope Z_scope.

(** Exceptions that the modelled code raises or catches. *)
Inductive exn :=
  | TypeError
  | ValueError
  | KeyError
  | AttributeError
  | UnboundLocalError
  | OtherError (name : string).

#[global] Instance exn_eq_dec : EqDecision exn.
Proof. solve_decision. Defined.

(** ** The chunk scanner [parse_dict_strings] *)

Module Parser.

Abbreviation pystr := (list ascii).

(** [s[lo:hi]] for non-negative bounds. *)
Definition slice (s : pystr) (lo hi : nat) : pystr :=
  take (hi - lo) (drop lo s).

(** [lstrip], [rstrip] and [strip] over a set of characters. *)
Fixpoint lstrip (p : ascii -> bool) (s : pystr) : pystr :=
  match s with
  | c :: s' => if p c then lstrip p s' else s
  | [] => []
  end.

Definition rstrip (p : ascii -> bool) (s : pystr) : pystr :=
  rev (lstrip p (rev s)).

Definition strip_chars (p : ascii -> bool) (s : pystr) : pystr :=
  rstrip p (lstrip p s).

(** Whitespace of [str.strip()]: space, tab, newline, vertical tab,
    form feed, carriage return. *)
Definition isspace (c : ascii) : bool :=
  bool_decide (c ∈ [" "; "009"; "010"; "011"; "012"; "013"]%char).

Definition strip (s : pystr) : pystr := strip_chars isspace s.

(** [s.strip(c)] for a one character argument. *)
Definition strip1 (c : ascii) (s : pystr) : pystr :=
  strip_chars (Ascii.eqb c) s.

(** The expression [x.strip().strip("(").strip(")")] of the loop's yield. *)
Definition strip_parens (s : pystr) : pystr :=
  strip1 ")" (strip1 "(" (strip s)).

(** The local variables of the generator.  [i] is unbound until the loop
    body has run once. *)
Record locals := Locals {
  level : Z;
  chunk_start : nat;
  curr_paren : option ascii;
  i : option nat
}.

(** One [yield]: the slice bounds the source evaluates, and the chunk. *)
Record yielded := Yielded {
  y_lo : nat;
  y_hi : nat;
  y_text : pystr
}.

Definition is_open (char : ascii) : bool :=
  bool_decide (char ∈ ["("; "["; "{"]%char).
Definition is_close (char : ascii) : bool :=
  bool_decide (char ∈ [")"; "]"; "}"]%char).
Definition is_quote (char : ascii) : bool :=
  bool_decide (char ∈ ["034"; "'"]%char).
Definition is_sep (char : ascii) : bool :=
  bool_decide (char ∈ [":"; ","]%char).

(** The [if / elif / elif] that tracks nesting and quoting. *)
Definition track (char : ascii) (st : locals) : Z * option ascii :=
  if is_open char && bool_decide (curr_paren st = None) then
    (level st + 1, curr_paren st)
  else if is_close char && bool_decide (curr_paren st = None) then
    (level st - 1, curr_paren st)
  else if is_quote char then
    if bool_decide (curr_paren st = Some char) then (level st, None)
    else if bool_decide (curr_paren st = None) then (level st, Some char)
    else (level st, curr_paren st)
  else (level st, curr_paren st).

(** The loop body at index [idx] and character [char]. *)
Definition body (code : pystr) (idx : nat) (char : ascii) (st : locals)
  : locals * list yielded :=
  let '(lv, cp) := track char st in
  if bool_decide (lv = 0) && is_sep char && bool_decide (cp = None) then
    (Locals lv (idx + 1) cp (Some idx),
     [Yielded (chunk_start st) idx
        (strip_parens (slice code (chunk_start st) idx))])
  else
    (Locals lv (chunk_start st) cp (Some idx), []).

(** [for i, char in enumerate(code)], started at index [idx] on the
    suffix [rest] of [code]. *)
Fixpoint loop (code rest : pystr) (idx : nat) (st : locals)
  : locals * list yielded :=
  match rest with
  | [] => (st, [])
  | char :: rest' =>
      let '(st1, ys1) := body code idx char st in
      let '(st2, ys2) := loop code rest' (S idx) st1 in
      (st2, ys1 ++ ys2)
  end.

(** How the generator ends. *)
Inductive outcome := Exhausted | Raised (e : exn).

(** The whole generator: everything it yields, in order, and how it
    ends.  The final [yield] reads [i]; when the loop body never ran the
    name is unbound and the generator raises instead of yielding. *)
Definition parse_trace (code : pystr) : list yielded * outcome :=
  let '(st, ys) := loop code code 0%nat (Locals 0 0%nat None None) in
  match i st with
  | None => (ys, Raised UnboundLocalError)
  | Some i =>
      (ys ++ [Yielded (chunk_start st) (i + 1)
                (strip (slice code (chunk_start st) (i + 1)))],
       Exhausted)
  end.

Definition parse_dict_strings (code : pystr) : list pystr * outcome :=
  (map y_text (parse_trace code).1, (parse_trace code).2).

(** String literals as scanner input. *)
Definition py (s : string) : pystr := list_ascii_of_string s.

(** *** What the specification calls well-formed input

    The following definitions do not come from the source: they say what
    a balanced token, a flat [key:value,] string, the nesting depth and
    the quoting of a position are, so that the scanner can be compared
    with them. *)

(** A token is balanced and flat when every bracket is closed again,
    never more are closed than were opened, every quote is closed by the
    same quote character, and no [':'] or [','] stands outside of all
    brackets and quotes.  [d] counts the brackets that are open, [q] is
    the quote character of the quoted literal that is open. *)
Fixpoint balanced_from (d : nat) (q : option ascii) (s : pystr) : bool :=
  match s with
  | [] => bool_decide (d = 0%nat) && bool_decide (q = None)
  | c :: s' =>
      match q with
      | Some o =>
          if Ascii.eqb c o then balanced_from d None s'
          else balanced_from d q s'
      | None =>
          if is_quote c then balanced_from d (Some c) s'
          else if is_open c then balanced_from (S d) None s'
          else if is_close c then
            match d with
            | O => false
            | S d' => balanced_from d' None s'
            end
          else if is_sep c && bool_decide (d = 0%nat) then false
          else balanced_from d None s'
      end
  end.

Definition balanced_flat (s : pystr) : bool := balanced_from 0 None s.

(** The string [k1:v1,k2:v2,...,kn:vn]. *)
Fixpoint render (pairs : list (pystr * pystr)) : pystr :=
  match pairs with
  | [] => []
  | (k, v) :: rest =>
      match rest with
      | [] => k ++ ":"%char :: v
      | _ :: _ => k ++ ":"%char :: v ++ ","%char :: render rest
      end
  end.

(** The keys and values of such a string, in the order they appear. *)
Definition tokens (pairs : list (pystr * pystr)) : list pystr :=
  flat_map (fun kv => [kv.1; kv.2]) pairs.

Definition well_formed (pairs : list (pystr * pystr)) : Prop :=
  Forall (fun t => balanced_flat t = true) (tokens pairs).

(** A chunk begins, or ends, with a character of a class. *)
Definition starts_with (p : ascii -> bool) (s : pystr) : bool :=
  match s with
  | c :: _ => p c
  | [] => false
  end.

Definition ends_with (p : ascii -> bool) (s : pystr) : bool :=
  starts_with p (rev s).




(** The quoted literal that is open after reading [s]: [None] outside of
    quotes, otherwise the quote character that opened it.  A literal is
    closed by the next occurrence of the character that opened it. *)
Definition quote_after (q : option ascii) (c : ascii) : option ascii :=
  match q with
  | Some o => if Ascii.eqb c o then None else q
  | None => if is_quote c then Some c else None
  end.

Definition open_quote (s : pystr) : option ascii :=
  fold_left quote_after s None.

(** The bracket nesting depth after reading [s]: opening minus closing
    brackets, counting only brackets outside of quoted literals. *)
Definition bracket_delta (c : ascii) : Z :=
  if is_open c then 1 else if is_close c then -1 else 0.

Fixpoint depth_from (q : option ascii) (s : pystr) : Z :=
  match s with
  | [] => 0
  | c :: s' =>
      match q with
      | None => bracket_delta c
      | Some _ => 0
      end + depth_from (quote_after q c) s'
  end.

Definition depth (s : pystr) : Z := depth_from None s.


(** Position [n] is a place where the string may be split: a [':'] or
    [','] outside of all brackets and quoted literals. *)
Definition split_point (code : pystr) (n : nat) : Prop :=
  (∃ c, code !! n = Some c ∧ is_sep c = true) ∧
  depth (take n code) = 0 ∧ open_quote (take n code) = None.

(** The yields of one run, from the chunk that starts at [lo] on: every
    chunk but the last ends before a split point and the next one starts
    behind it, the last one ends with the string. *)
Inductive chain (code : pystr) : nat -> list yielded -> Prop :=
  | chain_last lo y :
      y_lo y = lo ->
      y_hi y = length code ->
      (lo <= length code)%nat ->
      y_text y = strip (slice code lo (length code)) ->
      chain code lo [y]
  | chain_cons lo y ys :
      y_lo y = lo ->
      (lo <= y_hi y)%nat ->
      split_point code (y_hi y) ->
      y_text y = strip_parens (slice code lo (y_hi y)) ->
      chain code (S (y_hi y)) ys ->
      chain code lo (y :: ys).


(** *** Notions the proofs use *)

(** A quote state the scanner can be in. *)
Definition quote_ok (q : option ascii) : Prop :=
  ∀ o, q = Some o -> is_quote o = true.

(** The loop variable after the characters of [tok] were read from index
    [idx] on. *)
Definition i_after (i0 : option nat) (idx : nat) (tok : pystr)
  : option nat :=
  match tok with
  | [] => i0
  | _ :: _ => Some (idx + length tok - 1)%nat
  end.

(** [t0 s1 t1 s2 t2 ...]: tokens with one character between neighbours. *)
Fixpoint sep_join (t : pystr) (sts : list (ascii * pystr)) : pystr :=
  match sts with
  | [] => t
  | (s, t') :: sts' => t ++ s :: sep_join t' sts'
  end.

(** The chunks the generator makes of a sequence of tokens: what the
    loop yields for every token but the last, and the final yield. *)
Fixpoint chunks_of (toks : list pystr) : list pystr :=
  match toks with
  | [] => []
  | [t] => [strip t]
  | t :: ts => strip_parens t :: chunks_of ts
  end.

(** A rendered list of pairs is such a sequence. *)
Fixpoint more_tokens (pairs : list (pystr * pystr))
  : list (ascii * pystr) :=
  match pairs with
  | [] => []
  | (k, v) :: rest => (","%char, k) :: (":"%char, v) :: more_tokens rest
  end.

(** The characters that the two yields strip. *)
Definition trimmed (c : ascii) : bool :=
  isspace c || Ascii.eqb "(" c || Ascii.eqb ")" c.


End Parser.

(** ** The chart dialog *)

Module Dialog.

(** The values and services the dialog takes from elsewhere: the grid's
    evaluator, numpy, the chart figure and the widgets' accessors. *)
Class Universe := {
  value : Type;   (* results of cell evaluation *)
  elem : Type;    (* elements of a numpy array *)
  flt : Type;     (* floats *)
  cursor : Type   (* grid keys *)
}.

Section Values.
Context {U : Universe}.

(** The objects stored in series dictionaries. *)
Inductive pyval :=
  | VStr (s : string)
  | VTuple (t : list elem)
  | VFloat (f : flt).

End Values.

Abbreviation dict := (gmap string pyval).

Class External {U : Universe} := {
  (* self.grid.code_array._eval_cell(key, code) *)
  eval_cell : cursor -> pyval -> exn + value;
  (* tuple(numpy.array(result)) *)
  tuple_of_array : value -> exn + list elem;
  (* float(x) *)
  py_float : pyval -> exn + flt;
  (* str(x) as used by format, for objects that are not strings *)
  py_str : pyval -> string;
  (* self.figure.draw_chart(), reading figure.chart_data *)
  draw_chart : list dict -> option exn;
  (* self.style_editor.get_code(label) followed by repr *)
  line_style_repr : string -> string;
  marker_style_repr : string -> string;
  (* repr of an int *)
  repr_int : Z -> string;
  (* repr(tuple(i / 255.0 for i in colour.Get())) *)
  repr_colour : Z * Z * Z -> string;
  (* what get_figure_code's test and "(" + x + ")" make of an object
     that is not a string *)
  parenthesise_object : pyval -> exn + string
}.

(** Dictionary objects are shared by reference. *)
Definition loc := nat.

(** A [LabeledWidgetPanel]: all that the handlers use of it is the
    dictionary it was given. *)
Record widget_panel := WidgetPanel { series_data : loc }.

(** A [PlotPanel]. *)
Record plot_panel := PlotPanel {
  pp_series_data : loc;
  series_keys : list string;
  string_keys : list string;
  float_keys : list string;
  data_panel : widget_panel;
  line_panel : widget_panel;
  marker_panel : widget_panel
}.

(** A notebook page: a series panel, or the plain [wx.Panel] of the
    ["+"] tab. *)
Inductive page :=
  | SeriesPage (p : plot_panel)
  | PlainPage.

Inductive message := DrawChartMsg.

Section Model.
Context {U : Universe} {E : External}.

(** The dialog and the objects it reaches. *)
Record dialog := Dialog {
  heap : gmap loc dict;          (* the dictionary objects *)
  grid_cursor : cursor;          (* self.grid.actions.cursor *)
  series_notebook : list page;   (* the pages of self.series_notebook *)
  figure_chart_data : list loc;  (* self.figure.chart_data *)
  posted : list message;         (* events posted, oldest first *)
  canvas_draws : nat             (* calls of self.figure_canvas.draw() *)
}.

Definition set_heap (h : gmap loc dict) (d : dialog) : dialog :=
  Dialog h (grid_cursor d) (series_notebook d) (figure_chart_data d)
         (posted d) (canvas_draws d).

(** Statements run on a dialog and end normally or by an exception. *)
Definition M (A : Type) : Type := dialog -> dialog * (exn + A).

Definition ret {A} (a : A) : M A := fun d => (d, inr a).
Definition raise {A} (e : exn) : M A := fun d => (d, inl e).
Definition bind {A B} (m : M A) (k : A -> M B) : M B :=
  fun d =>
    match m d with
    | (d1, inr a) => k a d1
    | (d1, inl e) => (d1, inl e)
    end.

(** [try: m except (e1, e2, ...): h]. *)
Definition try_except {A} (m : M A) (caught : list exn) (h : M A) : M A :=
  fun d =>
    match m d with
    | (d1, inl e) => if bool_decide (e ∈ caught) then h d1 else (d1, inl e)
    | r => r
    end.

Definition lift {A} (r : exn + A) : M A := fun d => (d, r).

Notation "'do' x <- m ; k" := (bind m (fun x => k))
  (at level 10, x name, m at level 100, k at level 200).
Notation "m >> k" := (bind m (fun _ => k))
  (at level 100, k at level 200, right associativity).

(** [for x in xs: f x]. *)
Fixpoint for_each {A} (xs : list A) (f : A -> M unit) : M unit :=
  match xs with
  | [] => ret tt
  | x :: xs' => f x >> for_each xs' f
  end.

(** *** Dictionary objects *)

(** A new dictionary object with the contents [m]. *)
Definition new_dict (m : dict) : M loc :=
  fun d =>
    let l := fresh (dom (heap d)) in
    (set_heap (<[l := m]> (heap d)) d, inr l).

(** The contents of the object at [l].  Every reference the program
    holds is to a live object; the error is for the model's sake only. *)
Definition read_dict (l : loc) : M dict :=
  fun d =>
    match heap d !! l with
    | Some m => (d, inr m)
    | None => (d, inl (OtherError "dangling reference"))
    end.

(** [obj[key]]. *)
Definition getitem (l : loc) (key : string) : M pyval :=
  do m <- read_dict l ;
  match m !! key with
  | Some v => ret v
  | None => raise KeyError
  end.

(** [obj[key] = v]. *)
Definition setitem (l : loc) (key : string) (v : pyval) : M unit :=
  do m <- read_dict l ;
  fun d => (set_heap (<[l := <[key := v]> m]> (heap d)) d, inr tt).

(** [copy(obj)]: a new object with the same items. *)
Definition copy (l : loc) : M loc :=
  do m <- read_dict l ; new_dict m.

(** [obj.update(other)]. *)
Definition update (l other : loc) : M unit :=
  do m <- read_dict l ;
  do o <- read_dict other ;
  fun d => (set_heap (<[l := o ∪ m]> (heap d)) d, inr tt).

(** [post_command_event(self, msg)]. *)
Definition post_command_event (msg : message) : M unit :=
  fun d =>
    (Dialog (heap d) (grid_cursor d) (series_notebook d)
            (figure_chart_data d) (posted d ++ [msg]) (canvas_draws d),
     inr tt).

(** *** [PlotPanel.__init__] *)

(** The dictionary display that gives a series its default values. *)
Definition default_series_data : dict :=
  <["markeredgecolor" := VStr "(0, 0, 0)"]> (
  <["markerfacecolor" := VStr "(0, 0, 0)"]> (
  <["markersize" := VStr "5"]> (
  <["marker" := VStr "''"]> (
  <["color" := VStr "(0, 0, 0)"]> (
  <["linewidth" := VStr "1"]> (
  <["linestyle" := VStr "'-'"]> (
  <["ydata" := VStr ""]> (
  <["xdata" := VStr ""]> ∅)))))))).

(** The three widget panels are given the very dictionary the plot panel
    keeps. *)
Definition PlotPanel_init (given : option loc) : M plot_panel :=
  do sd <- new_dict default_series_data ;
  match given with
  | Some other => update sd other
  | None => ret tt
  end >>
  ret (PlotPanel sd
         ["xdata"; "ydata"; "color"; "markerfacecolor"; "markeredgecolor"]
         ["linestyle"; "marker"]
         ["markersize"]
         (WidgetPanel sd) (WidgetPanel sd) (WidgetPanel sd)).

(** *** The handlers of the data, line and marker panels *)

(** [ChartAxisDataPanel] *)
Definition OnXText (self : widget_panel) (event_string : string) : M unit :=
  setitem (series_data self) "xdata" (VStr event_string) >>
  post_command_event DrawChartMsg.

Definition OnYText (self : widget_panel) (event_string : string) : M unit :=
  setitem (series_data self) "ydata" (VStr event_string) >>
  post_command_event DrawChartMsg.

(** [ChartAxisLinePanel] *)
Definition Line_OnStyle (self : widget_panel) (event_string : string)
  : M unit :=
  setitem (series_data self) "linestyle"
          (VStr (line_style_repr event_string)) >>
  post_command_event DrawChartMsg.

Definition OnWidth (self : widget_panel) (event_selection : Z) : M unit :=
  setitem (series_data self) "linewidth"
          (VStr (repr_int event_selection)) >>
  post_command_event DrawChartMsg.

Definition OnColor (self : widget_panel) (event_value : Z * Z * Z)
  : M unit :=
  setitem (series_data self) "color" (VStr (repr_colour event_value)) >>
  post_command_event DrawChartMsg.

(** [ChartAxisMarkerPanel] *)
Definition Marker_OnStyle (self : widget_panel) (event_string : string)
  : M unit :=
  setitem (series_data self) "marker"
          (VStr (marker_style_repr event_string)) >>
  post_command_event DrawChartMsg.

Definition OnSize (self : widget_panel) (event_value : Z) : M unit :=
  setitem (series_data self) "markersize" (VStr (repr_int event_value)) >>
  post_command_event DrawChartMsg.

Definition OnEdgeColor (self : widget_panel) (event_value : Z * Z * Z)
  : M unit :=
  setitem (series_data self) "markeredgecolor"
          (VStr (repr_colour event_value)) >>
  post_command_event DrawChartMsg.

Definition OnFaceColor (self : widget_panel) (event_value : Z * Z * Z)
  : M unit :=
  setitem (series_data self) "markerfacecolor"
          (VStr (repr_colour event_value)) >>
  post_command_event DrawChartMsg.

(** The events the three [__bindings] methods bind, with what the
    handler reads from the event. *)
Inductive widget_event :=
  | EvXText (s : string)
  | EvYText (s : string)
  | EvLineStyle (s : string)
  | EvLineWidth (selection : Z)
  | EvLineColor (c : Z * Z * Z)
  | EvMarkerStyle (s : string)
  | EvMarkerSize (n : Z)
  | EvMarkerEdgeColor (c : Z * Z * Z)
  | EvMarkerFaceColor (c : Z * Z * Z).

Definition handle (self : widget_panel) (ev : widget_event) : M unit :=
  match ev with
  | EvXText s => OnXText self s
  | EvYText s => OnYText self s
  | EvLineStyle s => Line_OnStyle self s
  | EvLineWidth n => OnWidth self n
  | EvLineColor c => OnColor self c
  | EvMarkerStyle s => Marker_OnStyle self s
  | EvMarkerSize n => OnSize self n
  | EvMarkerEdgeColor c => OnEdgeColor self c
  | EvMarkerFaceColor c => OnFaceColor self c
  end.

(** *** [ChartDialog] *)

(** [charts.ChartFigure.__name__].
    Modelled from the spec: the class is defined in [src.lib.charts],
    the generated expression has the form [charts.ChartFigure(...)]. *)
Definition cls_name : string := "ChartFigure".

Definition get_cursor : M cursor := fun d => (d, inr (grid_cursor d)).

Definition get_series_tuple (code : pyval) : M (list elem) :=
  do key <- get_cursor;
  try_except
    (do result <- lift (eval_cell key code);
     do result_tuple <- lift (tuple_of_array result);
     ret result_tuple)
    [TypeError; ValueError]
    (ret []).

(** [self.series_notebook.GetPageCount() - 1]. *)
Definition no_series : M Z :=
  fun d => (d, inr (Z.of_nat (length (series_notebook d)) - 1)).

Definition xrange (n : Z) : list nat := seq 0 (Z.to_nat n).

Definition GetPage (n : nat) : M page :=
  fun d =>
    match series_notebook d !! n with
    | Some p => (d, inr p)
    | None => (d, inl (OtherError "no such page"))
    end.

(** Reading an attribute that only series panels have. *)
Definition plot_panel_of (p : page) : M plot_panel :=
  match p with
  | SeriesPage pp => ret pp
  | PlainPage => raise AttributeError
  end.

(** [s[n:]] and [s[1:-1]] on strings. *)
Fixpoint str_drop (n : nat) (s : string) : string :=
  match n, s with
  | O, _ => s
  | S n', String _ s' => str_drop n' s'
  | S _, EmptyString => EmptyString
  end.

Definition str_inner (s : string) : string :=
  string_of_list_ascii
    (Parser.slice (list_ascii_of_string s) 1 (String.length s - 1)).

(** [x[1:-1]]. *)
Definition inner (v : pyval) : exn + pyval :=
  match v with
  | VStr s => inr (VStr (str_inner s))
  | VTuple t => inr (VTuple (take (length t - 1 - 1) (drop 1 t)))
  | VFloat _ => inl TypeError
  end.

(** The body of the loop of [eval_chart_data], for the panels numbered
    [ns]; [chart_data] is the list built so far. *)
Fixpoint eval_series (ns : list nat) (chart_data : list loc)
  : M (list loc) :=
  match ns with
  | [] => ret chart_data
  | panel_number :: ns' =>
      do pg <- GetPage panel_number;
      do series_panel <- plot_panel_of pg;
      do sd <- copy (pp_series_data series_panel);
      for_each (series_keys series_panel) (fun key =>
        do v <- getitem sd key;
        do t <- get_series_tuple v;
        setitem sd key (VTuple t)) >>
      for_each (string_keys series_panel) (fun key =>
        do v <- getitem sd key;
        do v' <- lift (inner v);
        setitem sd key v') >>
      for_each (float_keys series_panel) (fun key =>
        do v <- getitem sd key;
        do f <- lift (py_float v);
        setitem sd key (VFloat f)) >>
      eval_series ns' (chart_data ++ [sd])
  end.

Definition eval_chart_data : M (list loc) :=
  do n <- no_series;
  eval_series (xrange n) [].

(** One round of [for key in series_data] in [get_figure_code]: the text
    added to [series_data_code]. *)
Definition item_code (keys : list string) (key : string) (v : pyval)
  : exn + string :=
  if bool_decide (key ∈ keys) then
    match v with
    | VStr value_str =>
        let value_str' :=
          if bool_decide (value_str = "")
             || (negb (bool_decide (String.get 0 value_str = Some "("%char))
                 || negb (bool_decide
                      (String.get (String.length value_str - 1) value_str
                       = Some ")"%char)))
          then "(" +:+ value_str +:+ ")"
          else value_str in
        inr ("'" +:+ key +:+ "': " +:+ value_str' +:+ ", ")
    | _ =>
        match parenthesise_object v with
        | inr value_str' =>
            inr ("'" +:+ key +:+ "': " +:+ value_str' +:+ ", ")
        | inl e => inl e
        end
    end
  else
    match v with
    | VStr value_str => inr ("'" +:+ key +:+ "': " +:+ value_str +:+ ", ")
    | _ => inr ("'" +:+ key +:+ "': " +:+ py_str v +:+ ", ")
    end.

Fixpoint items_code (keys : list string) (items : list (string * pyval))
    (series_data_code : string) : exn + string :=
  match items with
  | [] => inr series_data_code
  | (key, v) :: items' =>
      match item_code keys key v with
      | inr c => items_code keys items' (series_data_code +:+ c)
      | inl e => inl e
      end
  end.

Fixpoint figure_series (ns : list nat) (chart_data_code : string)
  : M string :=
  match ns with
  | [] => ret chart_data_code
  | panel_number :: ns' =>
      do pg <- GetPage panel_number;
      do panel <- plot_panel_of pg;
      do sd <- read_dict (pp_series_data panel);
      do series_data_code <-
        lift (items_code (series_keys panel) (map_to_list sd) "");
      figure_series ns'
        (chart_data_code +:+ ", {" +:+ series_data_code +:+ "}")
  end.

Definition get_figure_code : M string :=
  do n <- no_series;
  do chart_data_code <- figure_series (xrange n) "";
  ret ("charts." +:+ cls_name +:+ "(" +:+ str_drop 2 chart_data_code +:+ ")").

(** [self.figure.chart_data = data]. *)
Definition set_chart_data (data : list loc) : M unit :=
  fun d =>
    (Dialog (heap d) (grid_cursor d) (series_notebook d) data
            (posted d) (canvas_draws d),
     inr tt).

(** [self.figure.draw_chart()]: the figure reads the dictionaries of its
    [chart_data]. *)
Definition figure_draw_chart : M unit :=
  fun d =>
    match draw_chart (omap (fun l => heap d !! l) (figure_chart_data d)) with
    | Some e => (d, inl e)
    | None => (d, inr tt)
    end.

(** [self.figure_canvas.draw()]. *)
Definition figure_canvas_draw : M unit :=
  fun d =>
    (Dialog (heap d) (grid_cursor d) (series_notebook d)
            (figure_chart_data d) (posted d) (S (canvas_draws d)),
     inr tt).

(** The [return] of the [except] clause ends the handler; [drawn] tells
    whether the [try] block came to its end. *)
Definition OnDrawChart : M unit :=
  do data <- eval_chart_data;
  set_chart_data data >>
  do drawn <- try_except (figure_draw_chart >> ret true)
                         [ValueError]
                         (ret false);
  if drawn : bool then figure_canvas_draw else ret tt.

(** [AddPage] and [InsertPage] of the notebook. *)
Definition AddPage (pg : page) : M unit :=
  fun d =>
    (Dialog (heap d) (grid_cursor d) (series_notebook d ++ [pg])
            (figure_chart_data d) (posted d) (canvas_draws d),
     inr tt).

Definition InsertPage (n : nat) (pg : page) : M unit :=
  fun d =>
    (Dialog (heap d) (grid_cursor d)
            (take n (series_notebook d) ++ pg :: drop n (series_notebook d))
            (figure_chart_data d) (posted d) (canvas_draws d),
     inr tt).

Definition OnSeriesChanged (selection : Z) : M unit :=
  do n <- no_series;
  if bool_decide (selection = n) then
    do new_panel <- PlotPanel_init None;
    InsertPage (Z.to_nat selection) (SeriesPage new_panel)
  else ret tt.

(** The dictionary a series panel shows, when the panel's reference is
    live. *)
Definition panel_dict (d : dialog) (p : plot_panel) : option dict :=
  heap d !! pp_series_data p.

(** The series panels of a notebook whose last page is the ["+"] tab. *)
Definition series_pages (ps : list plot_panel) : list page :=
  map SeriesPage ps ++ [PlainPage].


(** The dictionary display that the generated expression holds for the
    series panel [p]. *)
Definition series_literal (d : dialog) (p : plot_panel) (lit : string)
  : Prop :=
  ∃ m body,
    panel_dict d p = Some m ∧
    items_code (series_keys p) (map_to_list m) "" = inr body ∧
    lit = "{" +:+ body +:+ "}".

(** The key each handler is meant to set, and the text it stores. *)
Definition handler_key (ev : widget_event) : string :=
  match ev with
  | EvXText _ => "xdata"
  | EvYText _ => "ydata"
  | EvLineStyle _ => "linestyle"
  | EvLineWidth _ => "linewidth"
  | EvLineColor _ => "color"
  | EvMarkerStyle _ => "marker"
  | EvMarkerSize _ => "markersize"
  | EvMarkerEdgeColor _ => "markeredgecolor"
  | EvMarkerFaceColor _ => "markerfacecolor"
  end.

Definition handler_text (ev : widget_event) : string :=
  match ev with
  | EvXText s => s
  | EvYText s => s
  | EvLineStyle s => line_style_repr s
  | EvLineWidth n => repr_int n
  | EvLineColor c => repr_colour c
  | EvMarkerStyle s => marker_style_repr s
  | EvMarkerSize n => repr_int n
  | EvMarkerEdgeColor c => repr_colour c
  | EvMarkerFaceColor c => repr_colour c
  end.

(** Two dialogs that differ in their dictionary objects at most. *)
Definition same_widgets (d d' : dialog) : Prop :=
  grid_cursor d' = grid_cursor d ∧
  series_notebook d' = series_notebook d ∧
  figure_chart_data d' = figure_chart_data d ∧
  posted d' = posted d ∧
  canvas_draws d' = canvas_draws d.

(** A dictionary of strings, as the panels keep them. *)
Definition all_strings (m : dict) : Prop :=
  ∀ key v, m !! key = Some v -> ∃ s, v = VStr s.

(** A statement that changes dictionary objects only, and leaves every
    object that exists as it is, those in [S] apart; it may make new
    objects. *)
Definition keeps {A} (S : loc -> Prop) (m : M A) : Prop :=
  ∀ d d' r, m d = (d', r) ->
    same_widgets d d' ∧
    ∀ l o, ¬ S l -> heap d !! l = Some o -> heap d' !! l = Some o.

(** What the loop over the series appends to [chart_data_code]. *)
Fixpoint listing (lits : list string) : string :=
  match lits with
  | [] => ""
  | lit :: lits' => ", " +:+ lit +:+ listing lits'
  end.

(** *** What [eval_chart_data] computes, without the heap

    The following functions are not the source's: they give the tuple of
    a cell text and the dictionary of a series as values, to compare the
    statements above with. *)

(** The tuple [get_series_tuple] returns for [code] at the grid key
    [key]. *)
Definition series_tuple (key : cursor) (code : pyval) : exn + list elem :=
  let guard (e : exn) : exn + list elem :=
    if bool_decide (e ∈ [TypeError; ValueError]) then inr [] else inl e in
  match eval_cell key code with
  | inl e => guard e
  | inr result =>
      match tuple_of_array result with
      | inl e => guard e
      | inr t => inr t
      end
  end.

(** [for key in keys: m[key] = f(m[key])] on a dictionary value. *)
Fixpoint coerce (f : pyval -> exn + pyval) (keys : list string) (m : dict)
  : exn + dict :=
  match keys with
  | [] => inr m
  | key :: keys' =>
      match m !! key with
      | None => inl KeyError
      | Some v =>
          match f v with
          | inl e => inl e
          | inr v' => coerce f keys' (<[key := v']> m)
          end
      end
  end.

Definition to_tuple (key : cursor) (v : pyval) : exn + pyval :=
  match series_tuple key v with
  | inr t => inr (VTuple t)
  | inl e => inl e
  end.

Definition to_float (v : pyval) : exn + pyval :=
  match py_float v with
  | inr f => inr (VFloat f)
  | inl e => inl e
  end.

(** The chart data of the series panel [p] whose dictionary is [m]. *)
Definition chart_series (key : cursor) (p : plot_panel) (m : dict)
  : exn + dict :=
  match coerce (to_tuple key) (series_keys p) m with
  | inl e => inl e
  | inr m1 =>
      match coerce inner (string_keys p) m1 with
      | inl e => inl e
      | inr m2 => coerce to_float (float_keys p) m2
      end
  end.

(** The dictionary [m'] is the chart data of the series whose panel [p]
    keeps [m]: the same keys, the tuple of the cell text under the series
    keys, the text between the quotes under the string keys, the float
    under the float keys, and what [m] has under every other key. *)
Definition chart_data_of (key : cursor) (p : plot_panel) (m m' : dict)
  : Prop :=
  dom m' = dom m ∧
  (∀ k, k ∈ series_keys p ->
     ∃ v t, m !! k = Some v ∧ series_tuple key v = inr t ∧
            m' !! k = Some (VTuple t)) ∧
  (∀ k, k ∈ string_keys p ->
     ∃ v v', m !! k = Some v ∧ inner v = inr v' ∧ m' !! k = Some v') ∧
  (∀ k, k ∈ float_keys p ->
     ∃ v f, m !! k = Some v ∧ py_float v = inr f ∧
            m' !! k = Some (VFloat f)) ∧
  (∀ k, k ∉ series_keys p ++ string_keys p ++ float_keys p ->
     m' !! k = m !! k).

(** Every series page of the notebook refers to a dictionary object that
    exists. *)
Definition live (d : dialog) : Prop :=
  ∀ n p, series_notebook d !! n = Some (SeriesPage p) ->
         is_Some (heap d !! pp_series_data p).

(** *** Notions the proofs of the loops use *)

(** A loop body [m[key] = f(m[key])] on the object at [sd]. *)
Definition coerces (sd : loc) (f : cursor -> pyval -> exn + pyval)
    (b : string -> M unit) : Prop :=
  ∀ key d m,
    heap d !! sd = Some m ->
    b key d =
    match m !! key with
    | None => (d, inl KeyError)
    | Some v =>
        match f (grid_cursor d) v with
        | inl e => (d, inl e)
        | inr v' => (set_heap (<[sd := <[key := v']> m]> (heap d)) d, inr tt)
        end
    end.

(** What one run of the loop of [eval_chart_data] leaves behind. *)
Definition series_result (d d' : dialog) (n : nat) (l : loc) : Prop :=
  ∃ p m m',
    series_notebook d !! n = Some (SeriesPage p) ∧
    heap d !! pp_series_data p = Some m ∧
    chart_series (grid_cursor d) p m = inr m' ∧
    heap d' !! l = Some m' ∧
    heap d !! l = None.

(** The series whose coercion ends the loop by an exception. *)
Definition first_failure (d : dialog) (ns : list nat) (e : exn) : Prop :=
  ∃ k n p m,
    ns !! k = Some n ∧
    series_notebook d !! n = Some (SeriesPage p) ∧
    heap d !! pp_series_data p = Some m ∧
    chart_series (grid_cursor d) p m = inl e ∧
    ∀ j n' q mq,
      (j < k)%nat ->
      ns !! j = Some n' ->
      series_notebook d !! n' = Some (SeriesPage q) ->
      heap d !! pp_series_data q = Some mq ->
      ∃ m', chart_series (grid_cursor d) q mq = inr m'.

End Model.

(** An evaluator and a figure to run the dialog with: cells hold
    integers, the text ["(1, 2)"] evaluates to an array, ["5"] to a
    scalar (which is no sequence), anything else is rejected. *)
Definition sample_universe : Universe :=
  {| value := Z; elem := Z; flt := Z; cursor := unit |}.

Definition sample_external : @External sample_universe :=
  {| eval_cell := fun (_ : @cursor sample_universe)
                      (code : @pyval sample_universe) =>
       match code with
       | VStr "(1, 2)" => inr 12
       | VStr "5" => inr 5
       | VStr "(0, 0, 0)" => inr 0
       | _ => inl ValueError
       end;
     tuple_of_array := fun v : @value sample_universe =>
       if bool_decide (v = 12) then inr [1; 2]
       else if bool_decide (v = 0) then inr [0; 0; 0]
       else inl TypeError;
     py_float := fun x : @pyval sample_universe =>
       match x with
       | VStr "5" => inr 5
       | _ => inl ValueError
       end;
     py_str := fun _ => "?";
     draw_chart := fun ds =>
       match ds with
       | [] => None
       | _ :: _ => Some ValueError
       end;
     line_style_repr := fun s => s;
     marker_style_repr := fun s => s;
     repr_int := fun _ => "0";
     repr_colour := fun _ => "(0.0, 0.0, 0.0)";
     parenthesise_object := fun _ => inl TypeError |}.

(** A dialog with one series, as [ChartDialog.__init__] leaves it for a
    cell without chart code, after the text [text] was entered for x and
    for y. *)
Definition sample_dialog (text : string)
  : @dialog sample_universe :=
  let d0 := @Dialog sample_universe ∅ tt [] [] [] 0 in
  let run :=
    @bind sample_universe _ _ (@PlotPanel_init sample_universe None)
      (fun p =>
         @bind sample_universe _ _
           (@AddPage sample_universe (SeriesPage p)) (fun _ =>
         @bind sample_universe _ _
           (@AddPage sample_universe PlainPage) (fun _ =>
         @bind sample_universe _ _
           (@OnXText sample_universe (data_panel p) text) (fun _ =>
           @OnYText sample_universe (data_panel p) text)))) in
  (run d0).1.

(** The series panel of [sample_dialog] and the dictionary it shows. *)
Definition sample_panel : plot_panel :=
  PlotPanel 0%nat
    ["xdata"; "ydata"; "color"; "markerfacecolor"; "markeredgecolor"]
    ["linestyle"; "marker"]
    ["markersize"]
    (WidgetPanel 0%nat) (WidgetPanel 0%nat) (WidgetPanel 0%nat).

Definition sample_series_data (text : string)
  : gmap string (@pyval sample_universe) :=
  <["ydata" := VStr text]> (
  <["xdata" := VStr text]> (@default_series_data sample_universe)).

(** A dialog for chart code that gives the marker size [abc], which is
    no number: the dictionary read from the code is the object 0, the
    panel made from it keeps the object 1. *)
Definition sample_series_param : gmap string (@pyval sample_universe) :=
  <["markersize" := VStr "abc"]> ∅.

Definition sample_bad_dialog : @dialog sample_universe :=
  let d0 := @Dialog sample_universe ∅ tt [] [] [] 0 in
  let run :=
    @bind sample_universe _ _ (@new_dict sample_universe sample_series_param)
      (fun given =>
         @bind sample_universe _ _
           (@PlotPanel_init sample_universe (Some given)) (fun p =>
         @bind sample_universe _ _
           (@AddPage sample_universe (SeriesPage p)) (fun _ =>
           @AddPage sample_universe PlainPage))) in
  (run d0).1.

Definition sample_bad_panel : plot_panel :=
  PlotPanel 1%nat
    ["xdata"; "ydata"; "color"; "markerfacecolor"; "markeredgecolor"]
    ["linestyle"; "marker"]
    ["markersize"]
    (WidgetPanel 1%nat) (WidgetPanel 1%nat) (WidgetPanel 1%nat).

(** A dialog without series: the notebook has the ["+"] tab alone. *)
Definition sample_empty_dialog : @dialog sample_universe :=
  @Dialog sample_universe ∅ tt [PlainPage] [] [] 0.

End Dialog.

(** ** The brush style table of [config.py] *)

Module Config.

(** The [wx] brush style constants the table names. *)
Inductive wx_constant :=
  | TRANSPARENT
  | SOLID
  | STIPPLE
  | BDIAGONAL_HATCH
  | CROSSDIAG_HATCH
  | FDIAGONAL_HATCH
  | CROSS_HATCH
  | HORIZONTAL_HATCH
  | VERTICAL_HATCH.

(** A dictionary display [{k1: v1, k2: v2, ...}] stores its items from
    left to right; a later item replaces an earlier one with the same
    key. *)
Definition dict_display {V} (items : list (string * V)) : gmap string V :=
  fold_left (fun m kv => <[kv.1 := kv.2]> m) items ∅.

(** The items of the display, as written. *)
Definition brush_styles_items : list (string * wx_constant) :=
  [ ("", TRANSPARENT);
    ("", SOLID);
    ("", STIPPLE);
    ("", BDIAGONAL_HATCH);
    ("", CROSSDIAG_HATCH);
    ("", FDIAGONAL_HATCH);
    ("", CROSS_HATCH);
    ("", HORIZONTAL_HATCH);
    ("", VERTICAL_HATCH)
  ].

Definition brush_styles : gmap string wx_constant :=
  dict_display brush_styles_items.

(** *** The font attributes *)

(** The [wx] font constants the tables name. *)
Inductive wx_font_constant :=
  | FONTWEIGHT_NORMAL
  | FONTWEIGHT_BOLD
  | FONTWEIGHT_LIGHT
  | FONTSTYLE_NORMAL
  | FONTSTYLE_ITALIC.

Definition font_weight_styles : list (string * wx_font_constant) :=
  [ ("normal", FONTWEIGHT_NORMAL);
    ("bold", FONTWEIGHT_BOLD);
    ("lighter", FONTWEIGHT_LIGHT)
  ].

Definition font_styles : list (string * wx_font_constant) :=
  [ ("normal", FONTSTYLE_NORMAL);
    ("italic", FONTSTYLE_ITALIC)
  ].

(** [dict(pairs)]: as a display, a later pair replaces an earlier one
    with the same key. *)
Definition dict_of_pairs {V} (pairs : list (string * V)) : gmap string V :=
  fold_left (fun m kv => <[kv.1 := kv.2]> m) pairs ∅.

(** [m[key]]. *)
Definition dict_getitem {V} (m : gmap string V) (key : string) : exn + V :=
  match m !! key with
  | Some v => inr v
  | None => inl KeyError
  end.

(** [x in xs], for strings. *)
Definition str_in (x : string) (xs : list string) : bool :=
  existsb (String.eqb x) xs.

(** [s[:n]] and [s[n:]], for [n] that is not negative. *)
Fixpoint str_upto (n : nat) (s : string) : string :=
  match n, s with
  | S n', String c s' => String c (str_upto n' s')
  | _, _ => EmptyString
  end.

Fixpoint str_from (n : nat) (s : string) : string :=
  match n, s with
  | S n', String _ s' => str_from n' s'
  | _, _ => s
  end.

(** [s[-2:]] and [s[:-2]]: a string of fewer than two characters is its
    own [s[-2:]], and its [s[:-2]] is empty. *)
Definition last_two (s : string) : string :=
  str_from (String.length s - 2) s.

Definition but_last_two (s : string) : string :=
  str_upto (String.length s - 2) s.

(** What a [convert_func] returns. *)
Inductive font_value :=
  | FontInt (n : Z)
  | FontConstant (c : wx_font_constant).

(** The entry of a tag.  The functions are applied to the text of an
    attribute. *)
Record font_attribute := FontAttribute {
  getter : string;
  setter : string;
  assert_func : string -> bool;
  convert_func : string -> exn + font_value
}.

Section FontAttributes.
(** The builtin [int], applied to a string. *)
Variable int : string -> exn + Z.

Definition convert_int (text : string) : exn + font_value :=
  match int text with
  | inr n => inr (FontInt n)
  | inl e => inl e
  end.

Definition convert_constant (pairs : list (string * wx_font_constant))
    (text : string) : exn + font_value :=
  match dict_getitem (dict_of_pairs pairs) text with
  | inr c => inr (FontConstant c)
  | inl e => inl e
  end.

Definition font_attributes_items : list (string * font_attribute) :=
  [ ("font-size",
     FontAttribute "GetPointSize" "SetPointSize"
       (fun size => String.eqb (last_two size) "pt")
       (fun size => convert_int (but_last_two size)));
    ("font-size-complex",
     FontAttribute "GetPointSize" "SetPointSize"
       (fun size => String.eqb (last_two size) "pt")
       (fun size => convert_int (but_last_two size)));
    ("font-style",
     FontAttribute "GetStyle" "SetStyle"
       (fun style => str_in style ["normal"; "italic"])
       (fun style => convert_constant font_styles style));
    ("font-style-complex",
     FontAttribute "GetStyle" "SetStyle"
       (fun style => str_in style ["normal"; "italic"])
       (fun style => convert_constant font_styles style));
    ("font-weight",
     FontAttribute "GetWeight" "SetWeight"
       (fun weight => str_in weight ["normal"; "bold"; "lighter"])
       (fun weight => convert_constant font_weight_styles weight));
    ("font-weight-complex",
     FontAttribute "GetWeight" "SetWeight"
       (fun weight => str_in weight ["normal"; "bold"; "lighter"])
       (fun weight => convert_constant font_weight_styles weight));
    ("text-underline-style",
     FontAttribute "GetUnderlined" "SetUnderlined"
       (fun underlined => String.eqb underlined "solid")
       (fun underlined => inr (FontInt 1)))
  ].

Definition font_attributes : gmap string font_attribute :=
  dict_display font_attributes_items.

End FontAttributes.

End Config.

(** ** Reading chart code back: [ChartDialog.__init__] *)

Module Opening.
Import Parser Dialog.

(** [s.split(c, 1)[1]]: the text behind the first [c]; without a [c] in
    [s] the list has one item and the index is out of range. *)
Fixpoint after_first (c : ascii) (s : pystr) : option pystr :=
  match s with
  | [] => None
  | x :: s' => if Ascii.eqb x c then Some s' else after_first c s'
  end.

(** [s[:-1]]. *)
Definition drop_last (s : pystr) : pystr := take (length s - 1) s.

(** [list(generator)]: the chunks, or the exception the generator
    raises. *)
Definition list_of (run : list pystr * outcome) : exn + list pystr :=
  match run.2 with
  | Exhausted => inr run.1
  | Raised e => inl e
  end.

(** [l[::2]] and [l[1::2]]. *)
Fixpoint evens {A} (l : list A) : list A :=
  match l with
  | [] => []
  | [x] => [x]
  | x :: _ :: l' => x :: evens l'
  end.

Definition odds {A} (l : list A) : list A :=
  match l with
  | [] => []
  | _ :: l' => evens l'
  end.

Section Init.
(** [ast.literal_eval], applied to the text of a key, together with the
    hashing of its result by [dict]: the keys [K] are the values that a
    dictionary takes as keys; a text that is no literal, or whose value
    is no such key, gives the exception. *)
Context {K : Type} `{Countable K} (literal_eval : pystr -> exn + K).

(** [dict((ast.literal_eval(k), v) for k, v in pairs)], started from the
    items [acc]. *)
Fixpoint dict_of (pairs : list (pystr * pystr)) (acc : gmap K pystr)
  : exn + gmap K pystr :=
  match pairs with
  | [] => inr acc
  | (k, v) :: pairs' =>
      match literal_eval k with
      | inl e => inl e
      | inr key => dict_of pairs' (<[key := v]> acc)
      end
  end.

(** The body of the loop over [code_param_list]. *)
Definition series_param (series_param_string : pystr)
  : exn + gmap K pystr :=
  match list_of (parse_dict_strings
                   (slice series_param_string 1
                          (length series_param_string - 1))) with
  | inl e => inl e
  | inr series_param_list =>
      dict_of (zip (evens series_param_list) (odds series_param_list)) ∅
  end.

Fixpoint series_params (code_param_list : list pystr)
    (code_param : list (gmap K pystr)) : exn + list (gmap K pystr) :=
  match code_param_list with
  | [] => inr code_param
  | series_param_string :: rest =>
      match series_param series_param_string with
      | inl e => inl e
      | inr sp => series_params rest (code_param ++ [sp])
      end
  end.

(** Lines 400 to 408 of [__init__]: the series dictionaries that chart
    code describes. *)
Definition code_param (code : pystr) : exn + list (gmap K pystr) :=
  match after_first "(" code with
  | None => inl (OtherError "IndexError")
  | Some rest =>
      match list_of (parse_dict_strings (drop_last rest)) with
      | inl e => inl e
      | inr code_param_list => series_params code_param_list []
      end
  end.

End Init.

(** *** What [get_figure_code] writes for a value

    The text that [item_code] puts behind a key, as a function of its
    own; [item_code_text] in the properties shows that it is this text. *)
Definition value_text (keys : list string) (key value_str : string)
  : string :=
  if bool_decide (key ∈ keys) then
    if bool_decide (value_str = "")
       || (negb (bool_decide (String.get 0 value_str = Some "("%char))
           || negb (bool_decide
                (String.get (String.length value_str - 1) value_str
                 = Some ")"%char)))
    then "(" +:+ value_str +:+ ")"
    else value_str
  else value_str.

(** The text of a key in chart code. *)
Definition key_text (key : string) : string := "'" +:+ key +:+ "'".



(** *** Notions the proofs use *)

(** The characters that [strip()], [strip("(")] and [strip(")")] take
    away. *)
Definition plain_ends (s : pystr) : Prop :=
  starts_with trimmed s = false ∧ ends_with trimmed s = false.

(** The separators and tokens behind the first key of a series: the
    value, then key and value of every further item, then the blank
    behind the last comma. *)
Fixpoint tail_tokens (items : list (pystr * pystr))
  : list (ascii * pystr) :=
  match items with
  | [] => [(","%char, [" "%char])]
  | (k, v) :: items' =>
      (","%char, " "%char :: k) :: (":"%char, " "%char :: v)
      :: tail_tokens items'
  end.

(** The text between the braces of a series, from the texts of its keys
    and values. *)
Definition body_of (items : list (pystr * pystr)) : pystr :=
  match items with
  | [] => []
  | (k, v) :: items' =>
      sep_join k ((":"%char, " "%char :: v) :: tail_tokens items')
  end.

(** The text of a string object; other objects have none. *)
Definition str_of `{U : Universe} (v : pyval) : string :=
  match v with
  | VStr s => s
  | _ => ""
  end.

(** The key and value texts [get_figure_code] writes for an item. *)
Definition written `{U : Universe} (keys : list string)
    (kv : string * pyval) : pystr * pystr :=
  (py (key_text kv.1), py (value_text keys kv.1 (str_of kv.2))).

(** *** Dictionaries that can be written and read back *)

Section Written.
Context {U : Universe}.
Context (literal_eval : pystr -> exn + string).

(** A dictionary that can be written to chart code and read back: it
    holds strings under at least one key, the text of every key is read
    as the key and is balanced, and so is the text written for every
    value. *)
Definition writable (keys : list string) (m : dict) : Prop :=
  m ≠ ∅ ∧
  all_strings m ∧
  (∀ key, is_Some (m !! key) ->
          literal_eval (py (key_text key)) = inr key ∧
          balanced_flat (py (key_text key)) = true) ∧
  (∀ key s, m !! key = Some (VStr s) ->
            balanced_flat (py (value_text keys key s)) = true).

(** The dictionary read back from the text of [m]. *)
Definition read_back (keys : list string) (m : dict)
    (sp : gmap string pystr) : Prop :=
  dom sp = dom m ∧
  ∀ key s, m !! key = Some (VStr s) ->
           sp !! key = Some (strip_parens (py (value_text keys key s))).

(** What is known of the text of a series that can be read back. *)
Definition readable_literal (lit : string) : Prop :=
  py lit ≠ [] ∧ balanced_flat (py lit) = true ∧ plain_ends (py lit).

(** The test of [writable] on one item. *)
Definition writable_item (keys : list string) (key : string) (v : pyval)
  : bool :=
  match v with
  | VStr s =>
      bool_decide (literal_eval (py (key_text key)) = inr key)
      && balanced_flat (py (key_text key))
      && balanced_flat (py (value_text keys key s))
  | _ => false
  end.

End Written.

(** A reader of key texts to run the code with: it reads the text of a
    string between apostrophes and rejects every other text. *)
Definition sample_literal_eval (k : pystr) : exn + string :=
  match k with
  | "'"%char :: rest =>
      match rev rest with
      | "'"%char :: body => inr (string_of_list_ascii (rev body))
      | _ => inl ValueError
      end
  | _ => inl ValueError
  end.

End Opening.

(** * Properties *)

(** ** The scanner *)

Module ParserFacts.
Import Parser.

(** *** Character classes *)

Lemma sep_cases c : is_sep c = true -> c = ":"%char ∨ c = ","%char.
Proof.
  unfold is_sep. rewrite bool_decide_eq_true, !elem_of_cons, elem_of_nil.
  tauto.
Qed.

Lemma sep_plain c :
  is_sep c = true ->
  is_open c = false ∧ is_close c = false ∧ is_quote c = false ∧
  isspace c = false ∧ Ascii.eqb "("%char c = false ∧
  Ascii.eqb ")"%char c = false.
Proof.
  intros [-> | ->]%sep_cases; vm_compute; repeat split.
Qed.

Lemma quote_cases c : is_quote c = true -> c = "034"%char ∨ c = "'"%char.
Proof.
  unfold is_quote. rewrite bool_decide_eq_true, !elem_of_cons, elem_of_nil.
  tauto.
Qed.

Lemma quote_plain c :
  is_quote c = true ->
  is_open c = false ∧ is_close c = false ∧ is_sep c = false.
Proof.
  intros [-> | ->]%quote_cases; vm_compute; repeat split.
Qed.

Lemma open_not_close c : is_open c = true -> is_close c = false.
Proof.
  unfold is_open. rewrite bool_decide_eq_true.
  intros H. repeat (apply elem_of_cons in H as [-> | H]; [reflexivity |]).
  by apply elem_of_nil in H.
Qed.

(** *** The loop variable *)

Lemma body_i code idx c st : i (body code idx c st).1 = Some idx.
Proof.
  unfold body. destruct (track c st) as [lv cp].
  by destruct (_ && _).
Qed.

Lemma loop_i code rest idx st :
  i (loop code rest idx st).1 =
  match rest with
  | [] => i st
  | _ :: _ => Some (idx + length rest - 1)%nat
  end.
Proof.
  revert idx st. induction rest as [| c rest IH]; intros idx st; [done |].
  simpl. pose proof (body_i code idx c st) as Hb.
  destruct (body code idx c st) as [st1 ys1]. simpl in Hb.
  specialize (IH (S idx) st1).
  destruct (loop code rest (S idx) st1) as [st2 ys2]. simpl in *.
  rewrite IH. destruct rest; simpl; [rewrite Hb |]; f_equal; lia.
Qed.

(** *** Stripping *)








(** *** The tracking step, in terms of depth and quoting *)

Lemma quote_ok_None : quote_ok None.
Proof. by intros o. Qed.

Lemma quote_after_ok q c : quote_ok q -> quote_ok (quote_after q c).
Proof.
  intros Hq o. unfold quote_after. destruct q as [o' |].
  - destruct (Ascii.eqb c o'); [done | apply Hq].
  - destruct (is_quote c) eqn:Hc; [| done]. by intros [= <-].
Qed.

Lemma track_spec c st :
  quote_ok (curr_paren st) ->
  track c st =
  (level st + match curr_paren st with
              | None => bracket_delta c
              | Some _ => 0
              end,
   quote_after (curr_paren st) c).
Proof.
  intros Hq. unfold track, quote_after, bracket_delta.
  destruct (curr_paren st) as [o |] eqn:Hcp.
  - rewrite !andb_false_r. specialize (Hq o eq_refl).
    destruct (Ascii.eqb_spec c o) as [-> | Hne].
    + rewrite Hq, bool_decide_eq_true_2 by done. f_equal. lia.
    + rewrite (bool_decide_eq_false_2 (Some o = Some c)) by congruence.
      destruct (is_quote c); f_equal; lia.
  - rewrite !andb_true_r.
    destruct (is_open c) eqn:Ho.
    { destruct (is_quote c) eqn:Hc; [| done].
      apply quote_plain in Hc as (Ho' & _). congruence. }
    destruct (is_close c) eqn:Hcl.
    { destruct (is_quote c) eqn:Hc; [| done].
      apply quote_plain in Hc as (_ & Hcl' & _). congruence. }
    destruct (is_quote c); f_equal; lia.
Qed.

Lemma body_spec code idx c st :
  quote_ok (curr_paren st) ->
  body code idx c st =
  let lv := level st + match curr_paren st with
                       | None => bracket_delta c
                       | Some _ => 0
                       end in
  let cp := quote_after (curr_paren st) c in
  if bool_decide (lv = 0) && is_sep c && bool_decide (cp = None) then
    (Locals lv (idx + 1) cp (Some idx),
     [Yielded (chunk_start st) idx
        (strip_parens (slice code (chunk_start st) idx))])
  else (Locals lv (chunk_start st) cp (Some idx), []).
Proof. intros Hq. unfold body. by rewrite track_spec. Qed.

(** A separator met outside of brackets and quotes ends a chunk. *)
Lemma body_sep code idx c cs i0 :
  is_sep c = true ->
  body code idx c (Locals 0 cs None i0) =
  (Locals 0 (idx + 1) None (Some idx),
   [Yielded cs idx (strip_parens (slice code cs idx))]).
Proof.
  intros Hc. rewrite body_spec by apply quote_ok_None. simpl.
  destruct (sep_plain c Hc) as (Ho & Hcl & Hq & _).
  unfold bracket_delta. by rewrite Ho, Hcl, Hq, Hc.
Qed.

(** *** Scanning a balanced token *)

Lemma i_after_cons idx c tok i0 :
  i_after (Some idx) (S idx) tok = i_after i0 idx (c :: tok).
Proof. destruct tok; simpl; f_equal; lia. Qed.

Lemma scan_token code tok :
  ∀ rest idx d q cs i0,
    quote_ok q ->
    balanced_from d q tok = true ->
    loop code (tok ++ rest) idx (Locals (Z.of_nat d) cs q i0) =
    loop code rest (idx + length tok)
         (Locals 0 cs None (i_after i0 idx tok)).
Proof.
  induction tok as [| c tok IH]; intros rest idx d q cs i0 Hq Hb.
  - simpl in *. apply andb_true_iff in Hb as [Hd Hn].
    apply bool_decide_eq_true in Hd as ->.
    apply bool_decide_eq_true in Hn as ->.
    by rewrite Nat.add_0_r.
  - assert (Hnext : ∀ d' q',
      quote_ok q' ->
      balanced_from d' q' tok = true ->
      Z.of_nat d' = Z.of_nat d + match q with
                                 | None => bracket_delta c
                                 | Some _ => 0
                                 end ->
      q' = quote_after q c ->
      bool_decide (Z.of_nat d' = 0) && is_sep c && bool_decide (q' = None)
        = false ->
      loop code ((c :: tok) ++ rest) idx (Locals (Z.of_nat d) cs q i0) =
      loop code rest (idx + length (c :: tok))
           (Locals 0 cs None (i_after i0 idx (c :: tok)))).
    { intros d' q' Hq' Hb' Hd' Hq'' Hquiet. simpl loop.
      rewrite body_spec by done. simpl.
      rewrite <- Hd', <- Hq'', Hquiet.
      rewrite (IH rest (S idx) d' q' cs (Some idx) Hq' Hb').
      rewrite (i_after_cons idx c tok i0).
      replace (S idx + length tok)%nat with (idx + length (c :: tok))%nat
        by (simpl; lia).
      by destruct (loop _ _ _ _). }
    simpl in Hb. unfold quote_after, bracket_delta in Hnext.
    destruct q as [o |].
    + (* inside a quoted literal *)
      destruct (Ascii.eqb c o) eqn:Hco.
      * apply (Hnext d None); [apply quote_ok_None | done | lia | done |].
        apply Ascii.eqb_eq in Hco as ->.
        destruct (quote_plain o (Hq o eq_refl)) as (_ & _ & ->).
        by rewrite andb_false_r.
      * apply (Hnext d (Some o)); [done | done | lia | done |].
        by rewrite andb_false_r.
    + destruct (is_quote c) eqn:Hc.
      { destruct (quote_plain c Hc) as (Ho & Hcl & Hs).
        rewrite Ho, Hcl in Hnext.
        apply (Hnext d (Some c)); [by intros ? [= <-] | done | lia | done |].
        by rewrite andb_false_r. }
      destruct (is_open c) eqn:Ho.
      { apply (Hnext (S d) None); [apply quote_ok_None | done | lia | done |].
        by rewrite (bool_decide_eq_false_2 (Z.of_nat (S d) = 0)) by lia. }
      destruct (is_close c) eqn:Hcl.
      { destruct d as [| d']; [done |].
        apply (Hnext d' None); [apply quote_ok_None | done | lia | done |].
        destruct (is_sep c) eqn:Hs; [| by rewrite andb_false_r].
        apply sep_plain in Hs as (_ & Hcl' & _). congruence. }
      destruct (is_sep c && bool_decide (d = 0%nat)) eqn:Hs; [done |].
      apply (Hnext d None); [apply quote_ok_None | done | lia | done |].
      destruct (is_sep c); [| by rewrite andb_false_r]. simpl in Hs.
      apply bool_decide_eq_false in Hs.
      by rewrite (bool_decide_eq_false_2 (Z.of_nat d = 0)) by lia.
Qed.

Lemma scan_flat_token code tok rest idx cs i0 :
  balanced_flat tok = true ->
  loop code (tok ++ rest) idx (Locals 0 cs None i0) =
  loop code rest (idx + length tok) (Locals 0 cs None (i_after i0 idx tok)).
Proof.
  intros Hb.
  apply (scan_token code tok rest idx 0 None cs i0 quote_ok_None Hb).
Qed.

(** *** Scanning a sequence of tokens *)

Lemma slice_middle (pre t post : pystr) :
  slice (pre ++ t ++ post) (length pre) (length pre + length t) = t.
Proof.
  unfold slice. rewrite drop_app_length.
  replace (length pre + length t - length pre)%nat with (length t) by lia.
  apply take_app_length.
Qed.

Lemma slice_end (pre t : pystr) :
  slice (pre ++ t) (length pre) (length (pre ++ t)) = t.
Proof.
  pose proof (slice_middle pre t []) as H.
  by rewrite app_nil_r, <- length_app in H.
Qed.

Lemma scan_tokens code :
  ∀ sts pre t i0,
    code = pre ++ sep_join t sts ->
    balanced_flat t = true ->
    Forall (fun st => is_sep st.1 = true ∧ balanced_flat st.2 = true) sts ->
    ∃ st' ys,
      loop code (sep_join t sts) (length pre)
           (Locals 0 (length pre) None i0) = (st', ys) ∧
      map y_text ys
        ++ [strip (slice code (chunk_start st') (length code))]
      = chunks_of (t :: map snd sts).
Proof.
  induction sts as [| [s t'] sts IH]; intros pre t i0 Hcode Ht Hsts.
  - simpl in *.
    pose proof (scan_flat_token code t [] (length pre) (length pre) i0 Ht)
      as Hscan.
    rewrite app_nil_r in Hscan. rewrite Hscan.
    eexists _, []. split; [done |]. simpl.
    by rewrite Hcode, slice_end.
  - apply Forall_cons in Hsts as [[Hs Ht'] Hsts]. simpl in Hs, Ht'.
    simpl sep_join.
    rewrite scan_flat_token by done.
    simpl loop. rewrite body_sep by done.
    destruct (IH (pre ++ t ++ [s]) t' (Some (length pre + length t)%nat))
      as (st' & ys & Hloop & Hys); [| done | done |].
    { rewrite Hcode. simpl. by rewrite <- !app_assoc. }
    rewrite !length_app in Hloop. simpl in Hloop.
    replace (length pre + (length t + 1))%nat
      with (S (length pre + length t)) in Hloop by lia.
    replace (length pre + length t + 1)%nat
      with (S (length pre + length t)) by lia.
    rewrite Hloop. eexists _, _. split; [done |].
    simpl map. rewrite <- app_comm_cons, Hys. simpl.
    rewrite Hcode at 1. simpl sep_join. by rewrite slice_middle.
Qed.

Lemma render_sep_join k v rest :
  render ((k, v) :: rest) = sep_join k ((":"%char, v) :: more_tokens rest).
Proof.
  revert k v. induction rest as [| [k' v'] rest IH]; intros k v; [done |].
  change (render ((k, v) :: (k', v') :: rest))
    with (k ++ ":"%char :: v ++ ","%char :: render ((k', v') :: rest)).
  by rewrite IH.
Qed.

Lemma more_tokens_snd rest : map snd (more_tokens rest) = tokens rest.
Proof.
  induction rest as [| [k v] rest IH]; [done |]. simpl. by rewrite IH.
Qed.

Lemma more_tokens_ok rest :
  well_formed rest ->
  Forall (fun st => is_sep st.1 = true ∧ balanced_flat st.2 = true)
         (more_tokens rest).
Proof.
  unfold well_formed.
  induction rest as [| [k v] rest IH]; intros H; [constructor |].
  simpl in H. apply Forall_cons in H as [Hk H].
  apply Forall_cons in H as [Hv H]. simpl.
  repeat constructor; auto.
Qed.

(** What the generator does on a well-formed string: it ends normally
    and has yielded one chunk for every key and value, in order. *)
Lemma parse_well_formed pairs :
  pairs ≠ [] ->
  well_formed pairs ->
  parse_dict_strings (render pairs) = (chunks_of (tokens pairs), Exhausted).
Proof.
  intros Hne Hwf. destruct pairs as [| [k v] rest]; [done |].
  assert (Hcode : render ((k, v) :: rest) ≠ []).
  { rewrite render_sep_join. simpl. by destruct k. }
  unfold well_formed in Hwf. simpl in Hwf.
  apply Forall_cons in Hwf as [Hk Hwf].
  apply Forall_cons in Hwf as [Hv Hwf].
  destruct (scan_tokens (render ((k, v) :: rest))
              ((":"%char, v) :: more_tokens rest) [] k None)
    as (st' & ys & Hloop & Hys).
  { by rewrite render_sep_join. }
  { done. }
  { constructor; [done | by apply more_tokens_ok]. }
  rewrite <- render_sep_join in Hloop. simpl length in Hloop.
  pose proof (loop_i (render ((k, v) :: rest)) (render ((k, v) :: rest))
                0 (Locals 0 0 None None)) as Hi.
  rewrite Hloop in Hi. simpl fst in Hi.
  unfold parse_dict_strings, parse_trace. rewrite Hloop.
  destruct (render ((k, v) :: rest)) as [| c code] eqn:Hr; [done |].
  rewrite Hi. cbn [fst snd]. f_equal.
  rewrite map_app. cbn [map y_text].
  replace (0 + length (c :: code) - 1 + 1)%nat with (length (c :: code))
    by (simpl; lia).
  rewrite Hys. simpl. by rewrite more_tokens_snd.
Qed.

Lemma chunks_of_length toks : length (chunks_of toks) = length toks.
Proof.
  induction toks as [| t [| t' ts] IH]; [done | done |].
  change (chunks_of (t :: t' :: ts))
    with (strip_parens t :: chunks_of (t' :: ts)).
  simpl length in *. by rewrite IH.
Qed.

Lemma tokens_length pairs : length (tokens pairs) = (2 * length pairs)%nat.
Proof. induction pairs as [| [k v] ps IH]; simpl in *; lia. Qed.

(** *** Where the generator splits *)

Lemma open_quote_snoc pre c :
  open_quote (pre ++ [c]) = quote_after (open_quote pre) c.
Proof. unfold open_quote. by rewrite fold_left_app. Qed.

Lemma open_quote_ok pre : quote_ok (open_quote pre).
Proof.
  induction pre as [| c pre IH] using rev_ind; [apply quote_ok_None |].
  rewrite open_quote_snoc. by apply quote_after_ok.
Qed.

Lemma depth_from_snoc q pre c :
  depth_from q (pre ++ [c]) =
  depth_from q pre + match fold_left quote_after pre q with
                     | None => bracket_delta c
                     | Some _ => 0
                     end.
Proof.
  revert q. induction pre as [| x pre IH]; intros q; simpl.
  - destruct q; lia.
  - rewrite IH. lia.
Qed.

Lemma depth_snoc pre c :
  depth (pre ++ [c]) =
  depth pre + match open_quote pre with
              | None => bracket_delta c
              | Some _ => 0
              end.
Proof. apply depth_from_snoc. Qed.


Lemma loop_chain code rest :
  ∀ pre st st' ys,
    code = pre ++ rest ->
    level st = depth pre ->
    curr_paren st = open_quote pre ->
    (chunk_start st <= length pre)%nat ->
    loop code rest (length pre) st = (st', ys) ->
    (chunk_start st' <= length code)%nat ∧
    ∀ tail, chain code (chunk_start st') tail ->
            chain code (chunk_start st) (ys ++ tail).
Proof.
  induction rest as [| c rest IH];
    intros pre st st' ys Hcode Hlv Hcp Hcs Hloop.
  - simpl in Hloop. injection Hloop as <- <-.
    rewrite app_nil_r in Hcode. subst code. by split.
  - simpl in Hloop.
    rewrite body_spec in Hloop by (rewrite Hcp; apply open_quote_ok).
    rewrite Hlv, Hcp, <- depth_snoc, <- open_quote_snoc in Hloop.
    cbn zeta in Hloop.
    assert (Hcode' : code = (pre ++ [c]) ++ rest)
      by (by rewrite <- app_assoc).
    assert (Hlen : length (pre ++ [c]) = S (length pre))
      by (rewrite length_app; simpl; lia).
    destruct (bool_decide (depth (pre ++ [c]) = 0) && is_sep c
              && bool_decide (open_quote (pre ++ [c]) = None)) eqn:Hcond.
    + (* a chunk ends here *)
      destruct (loop code rest (S (length pre)) _) as [st2 ys2] eqn:Hrest.
      injection Hloop as <- <-. rewrite <- Hlen in Hrest.
      eapply (IH (pre ++ [c])) in Hrest as [Hle Hchain];
        [| done | done | done | simpl; lia].
      split; [done |]. intros tail Htail. simpl.
      apply andb_true_iff in Hcond as [Hcond Hq].
      apply andb_true_iff in Hcond as [Hd Hsep].
      apply bool_decide_eq_true in Hd, Hq.
      destruct (sep_plain c Hsep) as (Ho & Hcl & Hqu & _).
      assert (Hq0 : open_quote pre = None).
      { rewrite open_quote_snoc in Hq. unfold quote_after in Hq.
        pose proof (open_quote_ok pre) as Hok.
        destruct (open_quote pre) as [o |]; [| done].
        destruct (Ascii.eqb_spec c o) as [-> | _]; [| done].
        rewrite (Hok o eq_refl) in Hqu. done. }
      assert (Hd0 : depth pre = 0).
      { rewrite depth_snoc, Hq0 in Hd. unfold bracket_delta in Hd.
        rewrite Ho, Hcl in Hd. lia. }
      apply chain_cons; simpl.
      * done.
      * done.
      * assert (Htake : take (length pre) code = pre)
          by (rewrite Hcode; apply take_app_length).
        split; [| by rewrite Htake].
        exists c. split; [| done].
        rewrite Hcode. by rewrite list_lookup_middle.
      * done.
      * specialize (Hchain tail Htail). simpl in Hchain.
        by replace (length pre + 1)%nat with (S (length pre)) in Hchain
          by lia.
    + destruct (loop code rest (S (length pre)) _) as [st2 ys2] eqn:Hrest.
      injection Hloop as <- <-. rewrite <- Hlen in Hrest.
      eapply (IH (pre ++ [c])) in Hrest as [Hle Hchain];
        [| done | done | done | simpl; lia].
      split; [done |]. intros tail Htail. simpl.
      apply (Hchain tail Htail).
Qed.

(** The yields of a run on a string that is not empty form a chain that
    starts with the string. *)
Lemma parse_trace_chain code :
  code ≠ [] -> chain code 0 (parse_trace code).1.
Proof.
  intros Hne. unfold parse_trace.
  pose proof (loop_i code code 0 (Locals 0 0 None None)) as Hi.
  destruct (loop code code 0 (Locals 0 0 None None)) as [st ys] eqn:Hloop.
  destruct (loop_chain code code [] (Locals 0 0 None None) st ys
              eq_refl eq_refl eq_refl (le_n 0) Hloop) as [Hle Hchain].
  simpl in Hi. destruct code as [| c code]; [done |].
  rewrite Hi. cbn [fst]. apply (Hchain [_]).
  replace (length (c :: code) - 1 + 1)%nat with (length (c :: code))
    by (simpl; lia).
  by apply chain_last.
Qed.

(** *** What stays in a chunk *)








(** *** The claims about the scanner *)

(** C1: a well-formed [key:value,] string with [n] keys makes the
    generator yield exactly [2 * n] chunks, one for every key and one for
    every value. *)
Theorem parse_dict_strings_chunk_count (pairs : list (pystr * pystr)) :
  well_formed pairs ->
  length (parse_dict_strings (render pairs)).1 = (2 * length pairs)%nat.
Proof.
  intros Hwf. destruct pairs as [| p ps]; [done |].
  rewrite parse_well_formed by done.
  cbn [fst]. by rewrite chunks_of_length, tokens_length.
Qed.

Lemma parse_dict_strings_chunk_count_witness :
  let pairs := [(py "'xdata'", py " (1, 2)"); (py " 'ydata'", py " [3:4]")] in
  well_formed pairs ∧
  length (parse_dict_strings (render pairs)).1 = 4%nat.
Proof.
  assert (Hwf : well_formed
    [(py "'xdata'", py " (1, 2)"); (py " 'ydata'", py " [3:4]")]).
  { unfold well_formed. simpl. repeat constructor. }
  split; [exact Hwf |].
  exact (parse_dict_strings_chunk_count _ Hwf).
Defined.



(** C8: on the empty string the generator yields nothing and raises,
    because its final [yield] reads the loop variable of a loop whose body
    never ran; on every other string it comes to its end. *)
Theorem parse_dict_strings_empty :
  parse_dict_strings [] = ([], Raised UnboundLocalError) ∧
  ∀ code : pystr,
    (parse_dict_strings code).2 = Exhausted ↔ code ≠ [].
Proof.
  split; [done |]. intros code. unfold parse_dict_strings, parse_trace.
  pose proof (loop_i code code 0 (Locals 0 0 None None)) as Hi.
  destruct (loop code code 0 (Locals 0 0 None None)) as [st ys].
  simpl in Hi. destruct code as [| c code]; rewrite Hi; by split.
Qed.


(** Whitespace that stands inside the parentheses of a chunk is kept
    too, since whitespace is stripped before the parentheses are. *)
Example inner_whitespace_is_kept :
  (parse_dict_strings (py "a:( 1 ),b:2")).1
  = [py "a"; py " 1 "; py "b"; py "2"].
Proof. by vm_compute. Qed.

(** The strings the dialog writes end in [", "]: there the final chunk
    is the empty rest behind the last comma. *)
Example generated_string_chunks :
  parse_dict_strings (py "'xdata': (1, 2), 'ydata': (3), ")
  = ([py "'xdata'"; py "1, 2"; py "'ydata'"; py "3"; []], Exhausted).
Proof. by vm_compute. Qed.



End ParserFacts.

(** ** More about the scanner *)

Module ParserMore.
Import Parser ParserFacts.

(** *** Where and how often the generator splits *)



(** The yields of the loop are all the yields but the last one. *)
Lemma parse_trace_loop code :
  code ≠ [] ->
  ∃ st ys y,
    loop code code 0 (Locals 0 0 None None) = (st, ys) ∧
    (parse_trace code).1 = ys ++ [y].
Proof.
  intros Hne. unfold parse_trace.
  pose proof (loop_i code code 0 (Locals 0 0 None None)) as Hi.
  destruct (loop code code 0 (Locals 0 0 None None)) as [st ys].
  simpl in Hi. destruct code as [| c code]; [done |].
  rewrite Hi. by eexists _, _, _.
Qed.


(** *** The pieces between the splits *)

Lemma parse_outcome code : code ≠ [] -> (parse_trace code).2 = Exhausted.
Proof.
  intros Hne. unfold parse_trace.
  pose proof (loop_i code code 0 (Locals 0 0 None None)) as Hi.
  destruct (loop code code 0 (Locals 0 0 None None)) as [st ys].
  simpl in Hi. destruct code as [| c code]; [done |]. by rewrite Hi.
Qed.

Lemma chunks_of_cons t t' ts :
  chunks_of (t :: t' :: ts) = strip_parens t :: chunks_of (t' :: ts).
Proof. done. Qed.

Lemma chain_pieces code lo ys :
  chain code lo ys ->
  ∃ t sts,
    drop lo code = sep_join t sts ∧
    Forall (fun st : ascii * pystr => is_sep st.1 = true) sts ∧
    map y_text ys = chunks_of (t :: map snd sts).
Proof.
  induction 1 as [lo y Hlo Hhi Hle Ht | lo y ys Hlo Hle Hsp Ht Hch IH].
  - exists (drop lo code), []. split; [done |]. split; [constructor |].
    simpl. rewrite Ht. unfold slice.
    by rewrite take_ge by (rewrite length_drop; lia).
  - destruct IH as (t' & sts & Hdrop & Hseps & Htexts).
    destruct Hsp as [(c & Hc & Hsep) _].
    exists (slice code lo (y_hi y)), ((c, t') :: sts).
    split; [| split].
    + simpl. rewrite <- Hdrop. unfold slice.
      rewrite <- (take_drop (y_hi y - lo) (drop lo code)) at 1.
      f_equal. rewrite drop_drop.
      replace (lo + (y_hi y - lo))%nat with (y_hi y) by lia.
      by apply drop_S.
    + by constructor.
    + simpl map. rewrite Htexts, Ht. by rewrite chunks_of_cons.
Qed.

(** X2: the chunks are the pieces of the string between separators, in
    order: every string that is not empty is a row of pieces with one
    [':'] or [','] between neighbours, and the generator yields, for every
    piece but the last, the piece after [strip()], [strip("(")] and
    [strip(")")], and for the last piece the piece after [strip()]; then
    it ends normally. *)
Theorem parse_dict_strings_pieces (code : pystr) :
  code ≠ [] ->
  ∃ (t : pystr) (sts : list (ascii * pystr)),
    code = sep_join t sts ∧
    Forall (fun st : ascii * pystr => is_sep st.1 = true) sts ∧
    parse_dict_strings code = (chunks_of (t :: map snd sts), Exhausted).
Proof.
  intros Hne.
  destruct (chain_pieces code 0 _ (parse_trace_chain code Hne))
    as (t & sts & Hdrop & Hseps & Htexts).
  exists t, sts. split; [done |]. split; [done |].
  unfold parse_dict_strings. by rewrite Htexts, parse_outcome.
Qed.

Lemma parse_dict_strings_pieces_witness :
  py "a:(b,c) , d" ≠ [] ∧
  ∃ (t : pystr) (sts : list (ascii * pystr)),
    py "a:(b,c) , d" = sep_join t sts ∧
    Forall (fun st : ascii * pystr => is_sep st.1 = true) sts ∧
    parse_dict_strings (py "a:(b,c) , d")
    = (chunks_of (t :: map snd sts), Exhausted).
Proof.
  split; [done |].
  exact (parse_dict_strings_pieces (py "a:(b,c) , d") ltac:(done)).
Defined.

(** *** Strings that end in a separator *)

Lemma parse_sep_join t sts :
  sep_join t sts ≠ [] ->
  balanced_flat t = true ->
  Forall (fun st => is_sep st.1 = true ∧ balanced_flat st.2 = true) sts ->
  parse_dict_strings (sep_join t sts)
  = (chunks_of (t :: map snd sts), Exhausted).
Proof.
  intros Hne Ht Hsts.
  destruct (scan_tokens (sep_join t sts) sts [] t None eq_refl Ht Hsts)
    as (st' & ys & Hloop & Hys).
  simpl length in Hloop.
  pose proof (loop_i (sep_join t sts) (sep_join t sts) 0
                (Locals 0 0 None None)) as Hi.
  rewrite Hloop in Hi. simpl fst in Hi.
  unfold parse_dict_strings, parse_trace. rewrite Hloop.
  destruct (sep_join t sts) as [| c code] eqn:Hr; [done |].
  rewrite Hi. cbn [fst snd]. f_equal.
  rewrite map_app. cbn [map y_text].
  replace (0 + length (c :: code) - 1 + 1)%nat with (length (c :: code))
    by (simpl; lia).
  by rewrite Hys.
Qed.

Lemma sep_join_snoc t sts s t' :
  sep_join t (sts ++ [(s, t')]) = sep_join t sts ++ s :: t'.
Proof.
  revert t. induction sts as [| [s0 t0] sts IH]; intros t; [done |].
  simpl. by rewrite IH, <- app_assoc.
Qed.

Lemma chunks_of_snoc toks t :
  chunks_of (toks ++ [t]) = map strip_parens toks ++ [strip t].
Proof.
  induction toks as [| t0 toks IH]; [done |].
  destruct toks as [| t1 toks]; [done |].
  cbn [app] in *. by rewrite chunks_of_cons, IH.
Qed.

(** X3: a well-formed string with a [", "] behind its last value, as the
    dialog writes its series, makes the generator yield one chunk for
    every key and every value, each after [strip()], [strip("(")] and
    [strip(")")], and then one empty chunk. *)
Theorem parse_dict_strings_trailing_separator
    (pairs : list (pystr * pystr)) :
  pairs ≠ [] ->
  well_formed pairs ->
  parse_dict_strings (render pairs ++ py ", ")
  = (map strip_parens (tokens pairs) ++ [[]], Exhausted).
Proof.
  intros Hne Hwf. destruct pairs as [| [k v] rest]; [done |].
  rewrite render_sep_join.
  change (py ", ") with (","%char :: py " ").
  rewrite <- sep_join_snoc.
  pose proof Hwf as Hwf'. unfold well_formed in Hwf'. simpl in Hwf'.
  apply Forall_cons in Hwf' as [Hk Hwf'].
  apply Forall_cons in Hwf' as [Hv Hwf'].
  rewrite parse_sep_join.
  - f_equal. rewrite map_app. simpl map. rewrite more_tokens_snd.
    exact (chunks_of_snoc (k :: v :: tokens rest) (py " ")).
  - rewrite sep_join_snoc. by destruct (sep_join k _).
  - done.
  - apply Forall_app. split.
    + constructor; [done | by apply more_tokens_ok].
    + by repeat constructor.
Qed.

Lemma parse_dict_strings_trailing_separator_witness :
  let pairs := [(py "'xdata'", py " (1, 2)"); (py " 'marker'", py " 'o'")] in
  pairs ≠ [] ∧
  well_formed pairs ∧
  parse_dict_strings (py "'xdata': (1, 2), 'marker': 'o', ")
  = ([py "'xdata'"; py "1, 2"; py "'marker'"; py "'o'"; []], Exhausted).
Proof.
  assert (Hwf : well_formed
    [(py "'xdata'", py " (1, 2)"); (py " 'marker'", py " 'o'")]).
  { unfold well_formed. simpl. repeat constructor. }
  split; [done |]. split; [exact Hwf |].
  exact (parse_dict_strings_trailing_separator
           [(py "'xdata'", py " (1, 2)"); (py " 'marker'", py " 'o'")]
           ltac:(done) Hwf).
Defined.

End ParserMore.

(** ** The dialog *)

Module DialogFacts.
Import Dialog.

Section Facts.
Context {U : Universe} {E : External}.

(** *** Running statements *)

Lemma bind_run {A B} (m : M A) (k : A -> M B) d d' r :
  bind m k d = (d', r) ->
  (∃ d1 a, m d = (d1, inr a) ∧ k a d1 = (d', r)) ∨
  (∃ e, m d = (d', inl e) ∧ r = inl e).
Proof.
  unfold bind. destruct (m d) as [d1 [e | a]]; intros H.
  - right. exists e. by injection H as <- <-.
  - left. by exists d1, a.
Qed.

Lemma same_widgets_refl (d : dialog) : same_widgets d d.
Proof. by repeat split. Qed.

Lemma same_widgets_trans (d1 d2 d3 : dialog) :
  same_widgets d1 d2 -> same_widgets d2 d3 -> same_widgets d1 d3.
Proof.
  unfold same_widgets. intros (? & ? & ? & ? & ?) (? & ? & ? & ? & ?).
  repeat split; congruence.
Qed.

Lemma keeps_pure {A} S (m : M A) :
  (∀ d, (m d).1 = d) -> keeps S m.
Proof.
  intros Hm d d' r Hrun. specialize (Hm d). rewrite Hrun in Hm.
  simpl in Hm. subst d'. split; [apply same_widgets_refl | done].
Qed.

Lemma keeps_ret {A} S (a : A) : keeps S (ret a).
Proof. by apply keeps_pure. Qed.

Lemma keeps_raise {A} S e : keeps S (@raise _ A e).
Proof. by apply keeps_pure. Qed.

Lemma keeps_lift {A} S (x : exn + A) : keeps S (lift x).
Proof. by apply keeps_pure. Qed.

Lemma keeps_bind {A B} S (m : M A) (k : A -> M B) :
  keeps S m -> (∀ a, keeps S (k a)) -> keeps S (bind m k).
Proof.
  intros Hm Hk d d' r Hrun.
  apply bind_run in Hrun as [(d1 & a & Hm1 & Hk1) | (e & Hm1 & _)].
  - destruct (Hm _ _ _ Hm1) as [Hw1 Hh1].
    destruct (Hk a _ _ _ Hk1) as [Hw2 Hh2].
    split; [by eapply same_widgets_trans | auto].
  - by apply (Hm _ _ _ Hm1).
Qed.

Lemma keeps_try_except {A} S (m : M A) caught (h : M A) :
  keeps S m -> keeps S h -> keeps S (try_except m caught h).
Proof.
  intros Hm Hh d d' r. unfold try_except.
  destruct (m d) as [d1 [e | a]] eqn:Hm1.
  - destruct (Hm _ _ _ Hm1) as [Hw1 Hh1].
    destruct (bool_decide (e ∈ caught)).
    + intros Hrun. destruct (Hh _ _ _ Hrun) as [Hw2 Hh2].
      split; [by eapply same_widgets_trans | auto].
    + by intros [= <- <-].
  - intros [= <- <-]. by apply (Hm _ _ _ Hm1).
Qed.

Lemma keeps_for_each {A} S (xs : list A) (f : A -> M unit) :
  (∀ x, keeps S (f x)) -> keeps S (for_each xs f).
Proof.
  intros Hf. induction xs as [| x xs IH]; simpl.
  - apply keeps_ret.
  - apply keeps_bind; [apply Hf | by intros _].
Qed.

Lemma keeps_read_dict S l : keeps S (read_dict l).
Proof.
  apply keeps_pure. intros d. unfold read_dict. by destruct (heap d !! l).
Qed.

Lemma keeps_getitem S l key : keeps S (getitem l key).
Proof.
  apply keeps_bind; [apply keeps_read_dict |].
  intros m. destruct (m !! key); [apply keeps_ret | apply keeps_raise].
Qed.

Lemma keeps_setitem (S : loc -> Prop) l key v :
  S l -> keeps S (setitem l key v).
Proof.
  intros HS. apply keeps_bind; [apply keeps_read_dict |].
  intros m d d' r [= <- <-]. split; [by repeat split |].
  intros l' o Hl' Ho. simpl. rewrite lookup_insert_ne; [done |].
  by intros ->.
Qed.

Lemma keeps_get_series_tuple S code : keeps S (get_series_tuple code).
Proof.
  apply keeps_bind; [by apply keeps_pure |].
  intros key. apply keeps_try_except; [| apply keeps_ret].
  apply keeps_bind; [apply keeps_lift |]. intros result.
  apply keeps_bind; [apply keeps_lift |]. intros t.
  apply keeps_ret.
Qed.

(** The object [copy] makes is new: a statement that changes this
    object alone leaves every object that existed before the copy as it
    was. *)
Lemma keeps_copy {B} S l (k : loc -> M B) :
  (∀ sd, keeps (fun l' => S l' ∨ l' = sd) (k sd)) ->
  keeps S (bind (copy l) k).
Proof.
  intros Hk d d' r Hrun.
  apply bind_run in Hrun as [(d1 & sd & Hm1 & Hk1) | (e & Hm1 & _)].
  - unfold copy in Hm1.
    apply bind_run in Hm1 as [(d0 & m & Hr & Hn) | (e & _ & [=])].
    unfold read_dict in Hr.
    destruct (heap d !! l) as [m' |] eqn:Hl; [| done].
    injection Hr as <- <-. unfold new_dict in Hn. injection Hn as <- <-.
    destruct (Hk _ _ _ _ Hk1) as [Hw Hh].
    split; [by destruct Hw as (? & ? & ? & ? & ?) |].
    intros l' o HS Hl'.
    assert (Hfresh : l' ≠ fresh (dom (heap d))).
    { intros ->. apply (is_fresh (dom (heap d))).
      apply elem_of_dom. by exists o. }
    apply Hh; [tauto |]. simpl. by rewrite lookup_insert_ne.
  - unfold copy in Hm1.
    apply bind_run in Hm1 as [(d0 & m & Hr & Hn) | (e' & Hr & _)].
    + unfold new_dict in Hn. by injection Hn.
    + unfold read_dict in Hr.
      destruct (heap d !! l); [done |]. injection Hr as <- _.
      split; [apply same_widgets_refl | done].
Qed.

Lemma keeps_eval_series S ns : ∀ chart_data,
  keeps S (eval_series ns chart_data).
Proof.
  revert S. induction ns as [| n ns IH]; intros S chart_data; simpl.
  { apply keeps_ret. }
  apply keeps_bind.
  { apply keeps_pure. intros d. unfold GetPage.
    by destruct (series_notebook d !! n). }
  intros pg. apply keeps_bind.
  { destruct pg; [apply keeps_ret | apply keeps_raise]. }
  intros series_panel. apply keeps_copy. intros sd.
  repeat (apply keeps_bind; [| intros _]); [.. | apply IH];
    apply keeps_for_each; intros key;
    (apply keeps_bind; [apply keeps_getitem | intros v]).
  - apply keeps_bind; [apply keeps_get_series_tuple | intros t].
    apply keeps_setitem. by right.
  - apply keeps_bind; [apply keeps_lift | intros v'].
    apply keeps_setitem. by right.
  - apply keeps_bind; [apply keeps_lift | intros f].
    apply keeps_setitem. by right.
Qed.

Lemma keeps_eval_chart_data S : keeps S eval_chart_data.
Proof.
  apply keeps_bind; [by apply keeps_pure |].
  intros n. apply keeps_eval_series.
Qed.

(** *** The generated expression *)

Lemma str_app_assoc (a b c : string) : (a +:+ b) +:+ c = a +:+ (b +:+ c).
Proof.
  induction a as [| x a IH]; [done |].
  change (String x ((a +:+ b) +:+ c) = String x (a +:+ (b +:+ c))).
  by rewrite IH.
Qed.


Lemma items_code_strings keys items :
  Forall (fun kv : string * pyval => ∃ s, kv.2 = VStr s) items ->
  ∀ acc, ∃ body, items_code keys items acc = inr body.
Proof.
  induction 1 as [| [key v] items [s Hs] _ IH]; intros acc.
  - by exists acc.
  - simpl in Hs. subst v. simpl. unfold item_code.
    destruct (bool_decide (key ∈ keys)); apply IH.
Qed.

Lemma all_strings_items (m : dict) :
  all_strings m ->
  Forall (fun kv : string * pyval => ∃ s, kv.2 = VStr s) (map_to_list m).
Proof.
  intros Hm. apply Forall_forall. intros [key v] Hkv.
  apply elem_of_map_to_list in Hkv. by apply (Hm key v).
Qed.

Lemma figure_series_form (d : dialog) :
  ∀ ps n acc,
    (∀ k p, ps !! k = Some p ->
            series_notebook d !! (n + k)%nat = Some (SeriesPage p)) ->
    Forall (fun p => ∃ m, panel_dict d p = Some m ∧ all_strings m) ps ->
    ∃ lits,
      Forall2 (series_literal d) ps lits ∧
      figure_series (seq n (length ps)) acc d
      = (d, inr (acc +:+ listing lits)).
Proof.
  induction ps as [| p ps IH]; intros n acc Hpages Hdicts.
  - exists []. split; [constructor |]. simpl. unfold ret. do 2 f_equal.
    induction acc as [| x acc IHa]; [done |].
    change (String x acc = String x (acc +:+ "")). by rewrite <- IHa.
  - apply Forall_cons in Hdicts as [(m & Hm & Hstr) Hdicts].
    destruct (items_code_strings (series_keys p) (map_to_list m)
                (all_strings_items m Hstr) "") as [body Hbody].
    destruct (IH (S n) (acc +:+ ", {" +:+ body +:+ "}")) as (lits & Hl & Hrun).
    { intros k p' Hk. specialize (Hpages (S k) p' Hk).
      by replace (S n + k)%nat with (n + S k)%nat by lia. }
    { done. }
    exists (("{" +:+ body +:+ "}") :: lits). split.
    + constructor; [| done]. by exists m, body.
    + pose proof (Hpages 0%nat p eq_refl) as Hp.
      rewrite Nat.add_0_r in Hp. unfold panel_dict in Hm.
      simpl. unfold bind at 1, GetPage. rewrite Hp.
      unfold bind at 1, plot_panel_of, ret.
      unfold bind at 1, read_dict. rewrite Hm.
      unfold bind at 1, lift. rewrite Hbody.
      rewrite Hrun. do 2 f_equal.
      change (listing (("{" +:+ body +:+ "}") :: lits))
        with (", {" +:+ (body +:+ "}") +:+ listing lits).
      by rewrite !str_app_assoc.
Qed.

(** *** The handlers *)

(** What a handler does to the dialog: one item of the panel's
    dictionary is stored, one event is posted. *)
Lemma handle_run (self : widget_panel) (ev : widget_event)
    (d : dialog) (m : dict) :
  heap d !! series_data self = Some m ->
  handle self ev d =
  (Dialog (<[series_data self :=
               <[handler_key ev := VStr (handler_text ev)]> m]> (heap d))
          (grid_cursor d) (series_notebook d) (figure_chart_data d)
          (posted d ++ [DrawChartMsg]) (canvas_draws d),
   inr tt).
Proof.
  intros Hm.
  assert (Hset : ∀ key v,
    bind (setitem (series_data self) key v)
         (fun _ => post_command_event DrawChartMsg) d =
    (Dialog (<[series_data self := <[key := v]> m]> (heap d))
            (grid_cursor d) (series_notebook d) (figure_chart_data d)
            (posted d ++ [DrawChartMsg]) (canvas_draws d), inr tt)).
  { intros key v. unfold setitem, bind, read_dict. by rewrite Hm. }
  destruct ev; apply Hset.
Qed.

(** The dictionaries of the panels hold strings: a new panel's does, and
    the handlers keep it so. *)
Lemma default_series_data_strings : all_strings default_series_data.
Proof.
  intros key v. unfold default_series_data.
  rewrite !lookup_insert, lookup_empty.
  repeat (case_decide; [intros [= <-]; by eexists |]). done.
Qed.

Lemma handle_keeps_strings (self : widget_panel) (ev : widget_event)
    (d : dialog) (l : loc) (m : dict) :
  is_Some (heap d !! series_data self) ->
  (∀ l o, heap d !! l = Some o -> all_strings o) ->
  heap (handle self ev d).1 !! l = Some m ->
  all_strings m.
Proof.
  intros [m0 Hm0] Hall. rewrite (handle_run self ev d m0 Hm0). simpl.
  destruct (decide (l = series_data self)) as [-> | Hne].
  - rewrite lookup_insert_eq. intros [= <-] key v.
    destruct (decide (key = handler_key ev)) as [-> | Hk].
    + rewrite lookup_insert_eq. intros [= <-]. by eexists.
    + rewrite lookup_insert_ne by done. by apply (Hall _ _ Hm0).
  - rewrite lookup_insert_ne by done. apply Hall.
Qed.

(** The three widget panels of a plot panel share its dictionary. *)
Lemma PlotPanel_init_shares given (d d' : dialog) (p : plot_panel) :
  PlotPanel_init given d = (d', inr p) ->
  series_data (data_panel p) = pp_series_data p ∧
  series_data (line_panel p) = pp_series_data p ∧
  series_data (marker_panel p) = pp_series_data p.
Proof.
  unfold PlotPanel_init. intros Hrun.
  apply bind_run in Hrun as [(d1 & sd & _ & Hrun) | (e & _ & [=])].
  apply bind_run in Hrun as [(d2 & [] & _ & Hrun) | (e & _ & [=])].
  by injection Hrun as _ <-.
Qed.

(** Selecting the ["+"] tab puts a new series panel before it: the
    notebook stays a row of series pages that ends with the ["+"] tab. *)
Lemma OnSeriesChanged_pages (d : dialog) (ps : list plot_panel) :
  series_notebook d = series_pages ps ->
  ∃ d' p,
    OnSeriesChanged (Z.of_nat (length ps)) d = (d', inr tt) ∧
    series_notebook d' = series_pages (ps ++ [p]) ∧
    panel_dict d' p = Some default_series_data.
Proof.
  intros Hpages. unfold OnSeriesChanged, bind at 1, no_series.
  rewrite Hpages. unfold series_pages at 1.
  rewrite bool_decide_eq_true_2
    by (rewrite length_app, length_map; simpl; lia).
  unfold bind, PlotPanel_init, new_dict, ret, InsertPage. simpl.
  eexists _, _. split; [reflexivity |]. simpl. split.
  - rewrite Hpages, Nat2Z.id. unfold series_pages.
    rewrite <- (length_map SeriesPage ps) at 1 2.
    rewrite take_app_length, drop_app_length.
    by rewrite map_app, <- app_assoc.
  - unfold panel_dict. simpl. apply lookup_insert_eq.
Qed.

(** *** The claims about the dialog *)

(** C9: computing the chart data leaves the dictionary of every series
    panel as it is; the notebook keeps its pages.  The coercions work on
    the copy made of each dictionary, which is a new object. *)
Theorem eval_chart_data_keeps_series_data
    (d : dialog) (p : plot_panel) (m : dict) :
  SeriesPage p ∈ series_notebook d ->
  panel_dict d p = Some m ->
  series_notebook (eval_chart_data d).1 = series_notebook d ∧
  panel_dict (eval_chart_data d).1 p = Some m.
Proof.
  intros _ Hm.
  destruct (eval_chart_data d) as [d' r] eqn:Hrun.
  destruct (keeps_eval_chart_data (fun _ => False) d d' r Hrun)
    as [(_ & Hpages & _) Hheap].
  split; [done |]. apply Hheap; [tauto | done].
Qed.

(** C4: when evaluating the cell, or making a tuple of its result,
    raises [TypeError] or [ValueError], [get_series_tuple] returns the
    empty tuple and no exception leaves it. *)
Theorem get_series_tuple_catches (d : dialog) (code : pyval) (e : exn) :
  e = TypeError ∨ e = ValueError ->
  eval_cell (grid_cursor d) code = inl e ∨
    (∃ v, eval_cell (grid_cursor d) code = inr v ∧
          tuple_of_array v = inl e) ->
  get_series_tuple code d = (d, inr []).
Proof.
  intros He Hraise.
  assert (Hin : bool_decide (e ∈ [TypeError; ValueError]) = true).
  { apply bool_decide_eq_true. rewrite !elem_of_cons.
    destruct He as [-> | ->]; auto. }
  unfold get_series_tuple, get_cursor, bind, try_except, lift, ret.
  destruct Hraise as [-> | (v & -> & ->)]; by rewrite Hin.
Qed.

(** C5: when the chart data can be computed and [draw_chart] raises
    [ValueError], the handler returns normally and the canvas is not
    drawn. *)
Theorem OnDrawChart_aborts_on_ValueError
    (d d1 : dialog) (data : list loc) :
  eval_chart_data d = (d1, inr data) ->
  draw_chart (omap (fun l => heap d1 !! l) data) = Some ValueError ->
  ∃ d2, OnDrawChart d = (d2, inr tt) ∧
        canvas_draws d2 = canvas_draws d.
Proof.
  intros Heval Hdraw.
  destruct (keeps_eval_chart_data (fun _ => False) d d1 _ Heval)
    as [(_ & _ & _ & _ & Hcanvas) _].
  unfold OnDrawChart, bind at 1. rewrite Heval.
  unfold bind, set_chart_data, try_except, figure_draw_chart.
  simpl. rewrite Hdraw. simpl. by eexists.
Qed.

(** C7: a handler of the data, line or marker panel stores one text
    under its own key of the series dictionary; the values of all other
    keys, and all other dictionaries, stay as they are. *)
Theorem handler_sets_one_key
    (self : widget_panel) (ev : widget_event) (d : dialog) (m : dict) :
  heap d !! series_data self = Some m ->
  ∃ m',
    (handle self ev d).2 = inr tt ∧
    heap (handle self ev d).1 !! series_data self = Some m' ∧
    m' !! handler_key ev = Some (VStr (handler_text ev)) ∧
    (∀ key, key ≠ handler_key ev -> m' !! key = m !! key) ∧
    (∀ l, l ≠ series_data self ->
          heap (handle self ev d).1 !! l = heap d !! l).
Proof.
  intros Hm. exists (<[handler_key ev := VStr (handler_text ev)]> m).
  rewrite (handle_run self ev d m Hm). simpl. split; [done |].
  split; [apply lookup_insert_eq |].
  split; [apply lookup_insert_eq |].
  split.
  - intros key Hkey. by apply lookup_insert_ne.
  - intros l Hl. by apply lookup_insert_ne.
Qed.


End Facts.

(** *** The claims at a sample dialog *)

Section Samples.
#[local] Existing Instance sample_universe.
#[local] Existing Instance sample_external.

Lemma all_strings_of_items (m : dict) :
  Forall (fun kv : string * pyval => ∃ s, kv.2 = VStr s) (map_to_list m) ->
  all_strings m.
Proof.
  intros Hm key v Hkv. rewrite Forall_forall in Hm.
  apply (Hm (key, v)). by apply elem_of_map_to_list.
Qed.


Lemma sample_dialog_panel text :
  panel_dict (sample_dialog text) sample_panel
  = Some (sample_series_data text).
Proof.
  by vm_compute.
Qed.

Lemma eval_chart_data_keeps_series_data_witness :
  SeriesPage sample_panel ∈ series_notebook (sample_dialog "(1, 2)") ∧
  panel_dict (sample_dialog "(1, 2)") sample_panel
    = Some (sample_series_data "(1, 2)") ∧
  series_notebook (eval_chart_data (sample_dialog "(1, 2)")).1
    = series_notebook (sample_dialog "(1, 2)") ∧
  panel_dict (eval_chart_data (sample_dialog "(1, 2)")).1 sample_panel
    = Some (sample_series_data "(1, 2)").
Proof.
  assert (Hpage : SeriesPage sample_panel
                  ∈ series_notebook (sample_dialog "(1, 2)")).
  { apply list_elem_of_here. }
  split; [exact Hpage |]. split; [apply sample_dialog_panel |].
  exact (eval_chart_data_keeps_series_data (sample_dialog "(1, 2)")
           sample_panel (sample_series_data "(1, 2)") Hpage
           (sample_dialog_panel "(1, 2)")).
Defined.

Lemma get_series_tuple_catches_witness :
  (ValueError = TypeError ∨ ValueError = ValueError) ∧
  eval_cell (grid_cursor (sample_dialog "oops")) (VStr "oops")
    = inl ValueError ∧
  get_series_tuple (VStr "oops") (sample_dialog "oops")
    = (sample_dialog "oops", inr []).
Proof.
  split; [by right |]. split; [reflexivity |].
  exact (get_series_tuple_catches (sample_dialog "oops") (VStr "oops")
           ValueError (or_intror eq_refl) (or_introl eq_refl)).
Defined.

Lemma sample_eval_chart_data :
  eval_chart_data (sample_dialog "(1, 2)")
  = ((eval_chart_data (sample_dialog "(1, 2)")).1, inr [1%nat]).
Proof. by vm_compute. Qed.

Lemma sample_draw_chart :
  draw_chart
    (omap (fun l => heap (eval_chart_data (sample_dialog "(1, 2)")).1 !! l)
          [1%nat])
  = Some ValueError.
Proof. by vm_compute. Qed.

Lemma OnDrawChart_aborts_on_ValueError_witness :
  eval_chart_data (sample_dialog "(1, 2)")
    = ((eval_chart_data (sample_dialog "(1, 2)")).1, inr [1%nat]) ∧
  draw_chart
    (omap (fun l => heap (eval_chart_data (sample_dialog "(1, 2)")).1 !! l)
          [1%nat])
    = Some ValueError ∧
  ∃ d2, OnDrawChart (sample_dialog "(1, 2)") = (d2, inr tt) ∧
        canvas_draws d2 = canvas_draws (sample_dialog "(1, 2)").
Proof.
  split; [exact sample_eval_chart_data |].
  split; [exact sample_draw_chart |].
  exact (OnDrawChart_aborts_on_ValueError (sample_dialog "(1, 2)")
           (eval_chart_data (sample_dialog "(1, 2)")).1 [1%nat]
           sample_eval_chart_data sample_draw_chart).
Defined.

Lemma sample_dialog_pages text :
  series_notebook (sample_dialog text) = series_pages [sample_panel].
Proof. by vm_compute. Qed.



Lemma handler_sets_one_key_witness :
  heap (sample_dialog "(1, 2)") !! series_data (line_panel sample_panel)
    = Some (sample_series_data "(1, 2)") ∧
  ∃ m',
    (handle (line_panel sample_panel) (EvLineWidth 3)
            (sample_dialog "(1, 2)")).2 = inr tt ∧
    heap (handle (line_panel sample_panel) (EvLineWidth 3)
                 (sample_dialog "(1, 2)")).1
      !! series_data (line_panel sample_panel) = Some m' ∧
    m' !! "linewidth" = Some (VStr (repr_int 3)) ∧
    (∀ key, key ≠ "linewidth" ->
            m' !! key = sample_series_data "(1, 2)" !! key) ∧
    (∀ l, l ≠ series_data (line_panel sample_panel) ->
          heap (handle (line_panel sample_panel) (EvLineWidth 3)
                       (sample_dialog "(1, 2)")).1 !! l
          = heap (sample_dialog "(1, 2)") !! l).
Proof.
  split; [apply (sample_dialog_panel "(1, 2)") |].
  exact (handler_sets_one_key (line_panel sample_panel) (EvLineWidth 3)
           (sample_dialog "(1, 2)") (sample_series_data "(1, 2)")
           (sample_dialog_panel "(1, 2)")).
Defined.

End Samples.
End DialogFacts.

(** ** More about the dialog *)

Module DialogMore.
Import Dialog DialogFacts.

Section More.
Context {U : Universe} {E : External}.

(** *** Statements that leave the dialog alone *)

Lemma get_series_tuple_run (code : pyval) (d : dialog) :
  get_series_tuple code d = (d, series_tuple (grid_cursor d) code).
Proof.
  unfold get_series_tuple, series_tuple, get_cursor, bind, try_except,
    lift, ret.
  destruct (eval_cell (grid_cursor d) code) as [e | result].
  - by destruct (bool_decide (e ∈ [TypeError; ValueError])).
  - destruct (tuple_of_array result) as [e | t]; [| done].
    by destruct (bool_decide (e ∈ [TypeError; ValueError])).
Qed.

Lemma set_heap_same (d : dialog) : set_heap (heap d) d = d.
Proof. by destruct d. Qed.

Lemma set_heap_set_heap h h' (d : dialog) :
  set_heap h (set_heap h' d) = set_heap h d.
Proof. done. Qed.

(** *** The loops of [eval_chart_data] *)

Lemma for_each_coerce sd f b keys :
  coerces sd f b ->
  ∀ d d' m,
    heap d !! sd = Some m ->
    for_each keys b d = (d', inr tt) ->
    ∃ m', coerce (f (grid_cursor d)) keys m = inr m' ∧
          d' = set_heap (<[sd := m']> (heap d)) d.
Proof.
  intros Hb. induction keys as [| key keys IH]; intros d d' m Hm Hrun.
  - simpl in Hrun. injection Hrun as <-. exists m. split; [done |].
    by rewrite insert_id, set_heap_same.
  - simpl in Hrun.
    apply bind_run in Hrun as [(d1 & [] & Hkey & Hrest) | (e & _ & [=])].
    rewrite (Hb key d m Hm) in Hkey. simpl.
    destruct (m !! key) as [v |]; [| done].
    destruct (f (grid_cursor d) v) as [e | v']; [done |].
    injection Hkey as <-.
    destruct (IH _ d' (<[key := v']> m)
                (lookup_insert_eq (heap d) sd (<[key := v']> m)) Hrest)
      as (m' & Hm' & ->).
    exists m'. split; [done |]. simpl. by rewrite insert_insert_eq.
Qed.

Lemma for_each_coerce_fail sd f b keys :
  coerces sd f b ->
  ∀ d d' m e,
    heap d !! sd = Some m ->
    for_each keys b d = (d', inl e) ->
    coerce (f (grid_cursor d)) keys m = inl e ∧
    ∃ m', d' = set_heap (<[sd := m']> (heap d)) d.
Proof.
  intros Hb. induction keys as [| key keys IH]; intros d d' m e Hm Hrun.
  - done.
  - simpl in Hrun. simpl.
    apply bind_run in Hrun as [(d1 & [] & Hkey & Hrest) | (e' & Hkey & He)];
      rewrite (Hb key d m Hm) in Hkey;
      destruct (m !! key) as [v |];
      try destruct (f (grid_cursor d) v) as [e0 | v']; try done.
    + injection Hkey as <-.
      destruct (IH _ d' (<[key := v']> m) e
                  (lookup_insert_eq (heap d) sd (<[key := v']> m)) Hrest)
        as (Hc & m' & ->).
      split; [done |]. exists m'. simpl. by rewrite insert_insert_eq.
    + injection Hkey as <- <-. injection He as <-. split; [done |].
      exists m. by rewrite insert_id, set_heap_same.
    + injection Hkey as <- <-. injection He as <-. split; [done |].
      exists m. by rewrite insert_id, set_heap_same.
Qed.

Lemma coerces_tuple sd :
  coerces sd to_tuple (fun key =>
    bind (getitem sd key) (fun v =>
    bind (get_series_tuple v) (fun t =>
    setitem sd key (VTuple t)))).
Proof.
  intros key d m Hm. unfold bind at 1, getitem, bind, read_dict.
  rewrite Hm. destruct (m !! key) as [v |]; [| done]. simpl.
  rewrite get_series_tuple_run. unfold to_tuple.
  destruct (series_tuple (grid_cursor d) v) as [e | t]; [done |].
  unfold setitem, bind, read_dict. by rewrite Hm.
Qed.

Lemma coerces_inner sd :
  coerces sd (fun _ => inner) (fun key =>
    bind (getitem sd key) (fun v =>
    bind (lift (inner v)) (fun v' =>
    setitem sd key v'))).
Proof.
  intros key d m Hm. unfold bind at 1, getitem, bind, read_dict.
  rewrite Hm. destruct (m !! key) as [v |]; [| done]. simpl.
  unfold lift. destruct (inner v) as [e | v']; [done |].
  unfold setitem, bind, read_dict. by rewrite Hm.
Qed.

Lemma coerces_float sd :
  coerces sd (fun _ => to_float) (fun key =>
    bind (getitem sd key) (fun v =>
    bind (lift (py_float v)) (fun f =>
    setitem sd key (VFloat f)))).
Proof.
  intros key d m Hm. unfold bind at 1, getitem, bind, read_dict.
  rewrite Hm. destruct (m !! key) as [v |]; [| done]. simpl.
  unfold lift, to_float. destruct (py_float v) as [e | f]; [done |].
  unfold setitem, bind, read_dict. by rewrite Hm.
Qed.

Lemma live_grows (d d' : dialog) :
  live d ->
  series_notebook d' = series_notebook d ->
  (∀ l o, heap d !! l = Some o -> heap d' !! l = Some o) ->
  live d'.
Proof.
  intros Hlive Hpages Hheap n p Hn. rewrite Hpages in Hn.
  destruct (Hlive n p Hn) as [o Ho]. exists o. by apply Hheap.
Qed.

Lemma eval_series_spec ns :
  ∀ cd d d' data,
    live d ->
    eval_series ns cd d = (d', inr data) ->
    ∃ new,
      data = cd ++ new ∧
      same_widgets d d' ∧
      (∀ l o, heap d !! l = Some o -> heap d' !! l = Some o) ∧
      NoDup new ∧
      Forall2 (series_result d d') ns new.
Proof.
  induction ns as [| n ns IH]; intros cd d d' data Hlive Hrun.
  - simpl in Hrun. injection Hrun as <- <-. exists [].
    rewrite app_nil_r. repeat split; try done; constructor.
  - simpl in Hrun.
    apply bind_run in Hrun as [(d0 & pg & Hpg & Hrun) | (e & _ & [=])].
    unfold GetPage in Hpg.
    destruct (series_notebook d !! n) as [pg' |] eqn:Hn; [| done].
    injection Hpg as <- <-.
    apply bind_run in Hrun as [(d0 & p & Hp & Hrun) | (e & _ & [=])].
    destruct pg' as [p' |]; [| done]. injection Hp as <- <-.
    apply bind_run in Hrun as [(d1 & sd & Hcopy & Hrun) | (e & _ & [=])].
    unfold copy in Hcopy.
    apply bind_run in Hcopy as [(d0 & m & Hread & Hnew) | (e & _ & [=])].
    unfold read_dict in Hread.
    destruct (heap d !! pp_series_data p') as [m0 |] eqn:Hm; [| done].
    injection Hread as <- <-. unfold new_dict in Hnew.
    injection Hnew as <- <-.
    set (sd := fresh (dom (heap d))) in *.
    assert (Hsd : heap d !! sd = None).
    { apply not_elem_of_dom. apply is_fresh. }
    apply bind_run in Hrun as [(d2 & [] & Hl1 & Hrun) | (e & _ & [=])].
    eapply (for_each_coerce sd to_tuple _ _ (coerces_tuple sd)) in Hl1
      as (m1 & Hm1 & ->); [| apply lookup_insert_eq].
    apply bind_run in Hrun as [(d3 & [] & Hl2 & Hrun) | (e & _ & [=])].
    eapply (for_each_coerce sd (fun _ => inner) _ _ (coerces_inner sd))
      in Hl2 as (m2 & Hm2 & ->); [| apply lookup_insert_eq].
    apply bind_run in Hrun as [(d4 & [] & Hl3 & Hrun) | (e & _ & [=])].
    eapply (for_each_coerce sd (fun _ => to_float) _ _ (coerces_float sd))
      in Hl3 as (m3 & Hm3 & ->); [| apply lookup_insert_eq].
    simpl in Hrun, Hm1, Hm2, Hm3. rewrite !insert_insert_eq in Hrun.
    set (d4 := set_heap (<[sd := m3]> (heap d)) d) in *.
    assert (Hgrow : ∀ l o, heap d !! l = Some o -> heap d4 !! l = Some o).
    { intros l o Hl. simpl. rewrite lookup_insert_ne; [done |].
      intros <-. congruence. }
    destruct (IH (cd ++ [sd]) d4 d' data) as
      (new & -> & Hw & Hkeep & Hnodup & Hnew); [| done |].
    { by apply (live_grows d). }
    exists (sd :: new). split; [by rewrite <- app_assoc |].
    split; [by destruct Hw as (? & ? & ? & ? & ?) |].
    split; [auto |].
    assert (Hfresh : ∀ l, l ∈ new -> heap d4 !! l = None).
    { intros l Hl. apply list_elem_of_lookup in Hl as [k Hk].
      destruct (Forall2_lookup_r _ _ _ _ _ Hnew Hk)
        as (n' & _ & (_ & _ & _ & _ & _ & _ & _ & Hnone)). done. }
    split.
    { constructor; [| done]. intros Hin. apply Hfresh in Hin.
      simpl in Hin. by rewrite lookup_insert_eq in Hin. }
    constructor.
    + exists p', m0, m3. repeat split; try done.
      * unfold chart_series. by rewrite Hm1, Hm2.
      * apply Hkeep. simpl. apply lookup_insert_eq.
    + eapply Forall2_impl; [exact Hnew |].
      intros n' l (q & m' & m'' & Hn' & Hq & Hc & Hl & Hnone).
      simpl in Hn', Hc.
      destruct (Hlive n' q Hn') as [o Ho].
      pose proof (Hgrow _ _ Ho) as Ho'. rewrite Hq in Ho'.
      injection Ho' as ->.
      exists q, o, m''. repeat split; try done.
      destruct (heap d !! l) as [o' |] eqn:Hl'; [| done].
      apply Hgrow in Hl'. congruence.
Qed.

(** One round of the loop over the series: the chart data of the series
    is put into a new object, or the exception of the first coercion that
    fails ends the loop. *)
Lemma eval_series_cons n ns cd (d d' : dialog) r p m :
  series_notebook d !! n = Some (SeriesPage p) ->
  heap d !! pp_series_data p = Some m ->
  eval_series (n :: ns) cd d = (d', r) ->
  (∃ m', chart_series (grid_cursor d) p m = inr m' ∧
         eval_series ns (cd ++ [fresh (dom (heap d))])
           (set_heap (<[fresh (dom (heap d)) := m']> (heap d)) d) = (d', r))
  ∨
  (∃ e mx, chart_series (grid_cursor d) p m = inl e ∧ r = inl e ∧
           d' = set_heap (<[fresh (dom (heap d)) := mx]> (heap d)) d).
Proof.
  intros Hn Hm Hrun. simpl in Hrun.
  unfold bind at 1, GetPage in Hrun. rewrite Hn in Hrun.
  unfold bind at 1, plot_panel_of, ret in Hrun.
  unfold bind at 1, copy, bind at 1, read_dict in Hrun.
  rewrite Hm in Hrun. unfold new_dict in Hrun.
  set (sd := fresh (dom (heap d))) in *.
  set (d1 := set_heap (<[sd := m]> (heap d)) d) in *.
  assert (H1 : heap d1 !! sd = Some m) by apply lookup_insert_eq.
  unfold chart_series.
  apply bind_run in Hrun as [(d2 & [] & Hl1 & Hrun) | (e & Hl1 & ->)].
  2: { right.
       eapply (for_each_coerce_fail sd to_tuple _ _ (coerces_tuple sd))
         in Hl1 as (Hc & mx & ->); [| exact H1].
       simpl in Hc. rewrite Hc. exists e, mx. split; [done |].
       split; [done |]. simpl. by rewrite insert_insert_eq. }
  eapply (for_each_coerce sd to_tuple _ _ (coerces_tuple sd)) in Hl1
    as (m1 & Hm1 & ->); [| exact H1].
  simpl in Hm1. rewrite Hm1.
  apply bind_run in Hrun as [(d3 & [] & Hl2 & Hrun) | (e & Hl2 & ->)].
  2: { right.
       eapply (for_each_coerce_fail sd (fun _ => inner) _ _
                 (coerces_inner sd))
         in Hl2 as (Hc & mx & ->); [| apply lookup_insert_eq].
       rewrite Hc. exists e, mx. split; [done |].
       split; [done |]. simpl. by rewrite !insert_insert_eq. }
  eapply (for_each_coerce sd (fun _ => inner) _ _ (coerces_inner sd)) in Hl2
    as (m2 & Hm2 & ->); [| apply lookup_insert_eq].
  rewrite Hm2.
  apply bind_run in Hrun as [(d4 & [] & Hl3 & Hrun) | (e & Hl3 & ->)].
  2: { right.
       eapply (for_each_coerce_fail sd (fun _ => to_float) _ _
                 (coerces_float sd))
         in Hl3 as (Hc & mx & ->); [| apply lookup_insert_eq].
       rewrite Hc. exists e, mx. split; [done |].
       split; [done |]. simpl. by rewrite !insert_insert_eq. }
  eapply (for_each_coerce sd (fun _ => to_float) _ _ (coerces_float sd))
    in Hl3 as (m3 & Hm3 & ->); [| apply lookup_insert_eq].
  left. exists m3. split; [done |].
  simpl in Hrun. by rewrite !insert_insert_eq in Hrun.
Qed.

Lemma eval_series_fail ns :
  ∀ cd (d d' : dialog) e,
    live d ->
    Forall (fun n => ∃ p, series_notebook d !! n = Some (SeriesPage p)) ns ->
    eval_series ns cd d = (d', inl e) ->
    same_widgets d d' ∧ first_failure d ns e.
Proof.
  induction ns as [| n ns IH]; intros cd d d' e Hlive Hpages Hrun; [done |].
  apply Forall_cons in Hpages as [[p Hn] Hpages].
  destruct (Hlive n p Hn) as [m Hm].
  destruct (eval_series_cons n ns cd d d' _ p m Hn Hm Hrun)
    as [(m' & Hc & Hrest) | (e' & mx & Hc & [= <-] & ->)].
  - set (sd := fresh (dom (heap d))) in *.
    set (d4 := set_heap (<[sd := m']> (heap d)) d) in *.
    assert (Hsd : heap d !! sd = None).
    { apply not_elem_of_dom. apply is_fresh. }
    assert (Hgrow : ∀ l o, heap d !! l = Some o -> heap d4 !! l = Some o).
    { intros l o Hl. simpl. rewrite lookup_insert_ne; [done |].
      intros <-. congruence. }
    destruct (IH (cd ++ [sd]) d4 d' e)
      as (Hw & k & n' & q & mq & Hk & Hq & Hmq & Hf & Hbefore);
      [by apply (live_grows d) | done | done |].
    split; [by destruct Hw as (? & ? & ? & ? & ?) |].
    simpl in Hq, Hf.
    destruct (Hlive n' q Hq) as [o Ho].
    pose proof (Hgrow _ _ Ho) as Ho'. rewrite Hmq in Ho'.
    injection Ho' as ->.
    exists (S k), n', q, o. repeat split; try done.
    intros [| j] n'' q' mq' Hj Hn'' Hq' Hmq'.
    + simpl in Hn''. injection Hn'' as <-.
      rewrite Hn in Hq'. injection Hq' as <-.
      rewrite Hm in Hmq'. injection Hmq' as <-. by exists m'.
    + apply (Hbefore j n'' q' mq'); [lia | done | done |].
      by apply Hgrow.
  - split; [by repeat split |].
    exists 0%nat, n, p, m. repeat split; try done. intros; lia.
Qed.

(** *** Coercing the items of a dictionary *)

Lemma coerce_dom f keys : ∀ (m m' : dict),
  coerce f keys m = inr m' -> dom m' = dom m.
Proof.
  induction keys as [| key keys IH]; intros m m' Hc; simpl in Hc.
  { by injection Hc as <-. }
  destruct (m !! key) as [v |] eqn:Hv; [| done].
  destruct (f v) as [e | v']; [done |].
  rewrite (IH _ _ Hc), dom_insert_L.
  apply subseteq_union_1_L, singleton_subseteq_l.
  by apply elem_of_dom_2 in Hv.
Qed.

Lemma coerce_other f keys key : ∀ (m m' : dict),
  coerce f keys m = inr m' -> key ∉ keys -> m' !! key = m !! key.
Proof.
  induction keys as [| k keys IH]; intros m m' Hc Hkey; simpl in Hc.
  { by injection Hc as <-. }
  destruct (m !! k) as [v |] eqn:Hv; [| done].
  destruct (f v) as [e | v']; [done |].
  apply not_elem_of_cons in Hkey as [Hne Hkey].
  rewrite (IH _ _ Hc Hkey). by apply lookup_insert_ne.
Qed.

Lemma coerce_key f keys key : ∀ (m m' : dict),
  coerce f keys m = inr m' ->
  NoDup keys ->
  key ∈ keys ->
  ∃ v v', m !! key = Some v ∧ f v = inr v' ∧ m' !! key = Some v'.
Proof.
  induction keys as [| k keys IH]; intros m m' Hc Hnd Hkey; simpl in Hc.
  { by apply elem_of_nil in Hkey. }
  destruct (m !! k) as [v |] eqn:Hv; [| done].
  destruct (f v) as [e | v'] eqn:Hf; [done |].
  apply NoDup_cons in Hnd as [Hk Hnd].
  destruct (decide (key = k)) as [-> | Hne].
  - exists v, v'. split; [done |]. split; [done |].
    rewrite (coerce_other _ _ _ _ _ Hc Hk). apply lookup_insert_eq.
  - apply elem_of_cons in Hkey as [-> | Hkey]; [done |].
    destruct (IH _ _ Hc Hnd Hkey) as (v0 & v0' & Hv0 & Hf0 & Hm').
    rewrite lookup_insert_ne in Hv0 by done. by exists v0, v0'.
Qed.

Lemma chart_series_chart_data_of key (p : plot_panel) (m m' : dict) :
  NoDup (series_keys p ++ string_keys p ++ float_keys p) ->
  chart_series key p m = inr m' ->
  chart_data_of key p m m'.
Proof.
  intros Hnd Hc. unfold chart_series in Hc.
  destruct (coerce (to_tuple key) (series_keys p) m) as [e | m1] eqn:H1;
    [done |].
  destruct (coerce inner (string_keys p) m1) as [e | m2] eqn:H2; [done |].
  apply NoDup_app in Hnd as (Hnd1 & Hdis1 & Hnd).
  apply NoDup_app in Hnd as (Hnd2 & Hdis2 & Hnd3).
  assert (Hss : ∀ k, k ∈ series_keys p -> k ∉ string_keys p).
  { intros k Hk Hk'. apply (Hdis1 k Hk). apply elem_of_app. by left. }
  assert (Hsf : ∀ k, k ∈ series_keys p -> k ∉ float_keys p).
  { intros k Hk Hk'. apply (Hdis1 k Hk). apply elem_of_app. by right. }
  split; [| split; [| split; [| split]]].
  - by rewrite (coerce_dom _ _ _ _ Hc), (coerce_dom _ _ _ _ H2),
      (coerce_dom _ _ _ _ H1).
  - intros k Hk.
    destruct (coerce_key _ _ k _ _ H1 Hnd1 Hk) as (v & v' & Hv & Hf & Hm1).
    unfold to_tuple in Hf.
    destruct (series_tuple key v) as [e | t] eqn:Ht; [done |].
    injection Hf as <-. exists v, t. split; [done |]. split; [done |].
    rewrite (coerce_other _ _ k _ _ Hc (Hsf k Hk)).
    by rewrite (coerce_other _ _ k _ _ H2 (Hss k Hk)).
  - intros k Hk.
    destruct (coerce_key _ _ k _ _ H2 Hnd2 Hk) as (v & v' & Hv & Hf & Hm2).
    exists v, v'. split; [| split; [done |]].
    + rewrite <- Hv. symmetry. apply (coerce_other _ _ k _ _ H1).
      intros Hk'. by apply (Hss k).
    + by rewrite (coerce_other _ _ k _ _ Hc (Hdis2 k Hk)).
  - intros k Hk.
    destruct (coerce_key _ _ k _ _ Hc Hnd3 Hk) as (v & v' & Hv & Hf & Hm3).
    unfold to_float in Hf. destruct (py_float v) as [e | f] eqn:Hpf; [done |].
    injection Hf as <-. exists v, f. split; [| done].
    rewrite <- Hv.
    rewrite (coerce_other _ _ k _ _ H2) by (intros Hk'; by apply (Hdis2 k)).
    symmetry. apply (coerce_other _ _ k _ _ H1).
    intros Hk'. by apply (Hsf k).
  - intros k Hk. rewrite !not_elem_of_app in Hk.
    destruct Hk as (Hk1 & Hk2 & Hk3).
    rewrite (coerce_other _ _ k _ _ Hc Hk3).
    rewrite (coerce_other _ _ k _ _ H2 Hk2).
    apply (coerce_other _ _ k _ _ H1 Hk1).
Qed.

Lemma eval_chart_data_spec (d d' : dialog) data :
  live d ->
  eval_chart_data d = (d', inr data) ->
  same_widgets d d' ∧
  NoDup data ∧
  Forall2 (series_result d d')
          (seq 0 (length (series_notebook d) - 1)) data.
Proof.
  intros Hlive Hrun. unfold eval_chart_data, bind, no_series in Hrun.
  unfold xrange in Hrun.
  replace (Z.to_nat (Z.of_nat (length (series_notebook d)) - 1))
    with (length (series_notebook d) - 1)%nat in Hrun by lia.
  destruct (eval_series_spec _ _ _ _ _ Hlive Hrun)
    as (new & -> & Hw & _ & Hnd & Hres).
  done.
Qed.

(** X4: when [eval_chart_data] comes to its end in a dialog whose series
    pages refer to existing dictionaries, it has made one dictionary for
    every page but the last of the notebook; these are new objects, all
    different, none of them an object that existed before the call. *)
Theorem eval_chart_data_new_objects (d d' : dialog) (data : list loc) :
  live d ->
  eval_chart_data d = (d', inr data) ->
  length data = (length (series_notebook d) - 1)%nat ∧
  NoDup data ∧
  ∀ l, l ∈ data -> heap d !! l = None ∧ is_Some (heap d' !! l).
Proof.
  intros Hlive Hrun.
  destruct (eval_chart_data_spec d d' data Hlive Hrun) as (_ & Hnd & Hres).
  split; [| split; [done |]].
  - apply Forall2_length in Hres. by rewrite length_seq in Hres.
  - intros l Hl. apply list_elem_of_lookup in Hl as [k Hk].
    destruct (Forall2_lookup_r _ _ _ _ _ Hres Hk)
      as (n & _ & (p & m & m' & _ & _ & _ & Hl' & Hnone)).
    by rewrite Hl'.
Qed.

(** X5: when [eval_chart_data] comes to its end, the dictionary it
    returns for a series has the keys of the panel's dictionary; under the
    series keys it holds the tuples of the cell texts, under the string
    keys the texts without their first and last character, under the float
    keys the floats, and under every other key (such as ["linewidth"])
    the very text the panel keeps.  The three lists of keys share no
    key. *)
Theorem eval_chart_data_contents
    (d d' : dialog) (data : list loc) (ps : list plot_panel) :
  series_notebook d = series_pages ps ->
  live d ->
  Forall (fun p => NoDup (series_keys p ++ string_keys p ++ float_keys p))
         ps ->
  eval_chart_data d = (d', inr data) ->
  Forall2 (fun p l =>
             ∃ m m', panel_dict d p = Some m ∧ heap d' !! l = Some m' ∧
                     chart_data_of (grid_cursor d) p m m')
          ps data.
Proof.
  intros Hpages Hlive Hkeys Hrun.
  destruct (eval_chart_data_spec d d' data Hlive Hrun) as (_ & _ & Hres).
  rewrite Hpages in Hres. unfold series_pages in Hres.
  rewrite length_app, length_map in Hres. simpl in Hres.
  replace (length ps + 1 - 1)%nat with (length ps) in Hres by lia.
  apply Forall2_same_length_lookup. split.
  { apply Forall2_length in Hres. by rewrite length_seq in Hres. }
  intros k p l Hp Hl.
  assert (Hk : seq 0 (length ps) !! k = Some k).
  { apply lookup_seq. split; [done |]. by apply lookup_lt_Some in Hp. }
  destruct (Forall2_lookup_lr _ _ _ _ _ _ Hres Hk Hl)
    as (q & m & m' & Hq & Hm & Hc & Hm' & _).
  rewrite Hpages in Hq. unfold series_pages in Hq.
  rewrite lookup_app_l in Hq
    by (rewrite length_map; by apply lookup_lt_Some in Hp).
  rewrite list_lookup_fmap, Hp in Hq. injection Hq as <-.
  exists m, m'. split; [done |]. split; [done |].
  apply chart_series_chart_data_of; [| done].
  rewrite Forall_forall in Hkeys. apply Hkeys.
  by apply list_elem_of_lookup_2 in Hp.
Qed.

(** *** When the chart data cannot be computed *)

Lemma series_pages_lookup (ps : list plot_panel) k :
  (k < length ps)%nat ->
  ∃ p, ps !! k = Some p ∧ series_pages ps !! k = Some (SeriesPage p).
Proof.
  intros Hk. destruct (lookup_lt_is_Some_2 ps k Hk) as [p Hp].
  exists p. split; [done |]. unfold series_pages.
  rewrite lookup_app_l by (by rewrite length_map).
  by rewrite list_lookup_fmap, Hp.
Qed.

Lemma eval_chart_data_raises
    (d : dialog) (ps : list plot_panel) k p m e :
  series_notebook d = series_pages ps ->
  live d ->
  ps !! k = Some p ->
  panel_dict d p = Some m ->
  chart_series (grid_cursor d) p m = inl e ->
  (∀ j q mq, (j < k)%nat -> ps !! j = Some q -> panel_dict d q = Some mq ->
             ∃ m', chart_series (grid_cursor d) q mq = inr m') ->
  ∃ d', eval_chart_data d = (d', inl e) ∧ same_widgets d d'.
Proof.
  intros Hpages Hlive Hp Hm Hc Hbefore.
  assert (Hlen : (length (series_notebook d) - 1)%nat = length ps).
  { rewrite Hpages. unfold series_pages.
    rewrite length_app, length_map. simpl. lia. }
  assert (Hpage : ∀ j q, ps !! j = Some q ->
                         series_notebook d !! j = Some (SeriesPage q)).
  { intros j q Hq. rewrite Hpages.
    destruct (series_pages_lookup ps j) as (q' & Hq' & Hl);
      [by apply lookup_lt_Some in Hq |]. congruence. }
  destruct (eval_chart_data d) as [d' [e' | data]] eqn:Hrun.
  - unfold eval_chart_data, bind, no_series, xrange in Hrun.
    replace (Z.to_nat (Z.of_nat (length (series_notebook d)) - 1))
      with (length ps) in Hrun by lia.
    assert (Hall : Forall (fun n => ∃ p, series_notebook d !! n
                                        = Some (SeriesPage p))
                          (seq 0 (length ps))).
    { apply Forall_forall. intros n Hn. apply elem_of_seq in Hn.
      destruct (series_pages_lookup ps n) as (q & _ & Hq); [lia |].
      exists q. by rewrite Hpages. }
    destruct (eval_series_fail _ _ _ _ _ Hlive Hall Hrun)
      as (Hw & k' & n' & p' & m' & Hk' & Hn' & Hm' & Hc' & Hbefore').
    apply lookup_seq in Hk' as [-> Hlt]. simpl in Hn'.
    exists d'. split; [| done]. do 2 f_equal.
    destruct (lt_eq_lt_dec k' k) as [[Hlt' | ->] | Hgt].
    + destruct (series_pages_lookup ps k' Hlt) as (q & Hq & Hq').
      rewrite Hpages, Hq' in Hn'. injection Hn' as <-.
      destruct (Hbefore k' q m' Hlt' Hq Hm') as [mx Hmx]. congruence.
    + rewrite (Hpage k p Hp) in Hn'. injection Hn' as <-.
      unfold panel_dict in Hm. congruence.
    + destruct (Hbefore' k k p m Hgt) as [mx Hmx]; try done.
      * apply lookup_seq. split; [done |]. by apply lookup_lt_Some in Hp.
      * by apply Hpage.
      * congruence.
  - destruct (eval_chart_data_spec d d' data Hlive Hrun) as (_ & _ & Hres).
    rewrite Hlen in Hres.
    assert (Hk : seq 0 (length ps) !! k = Some k).
    { apply lookup_seq. split; [done |]. by apply lookup_lt_Some in Hp. }
    destruct (Forall2_lookup_l _ _ _ _ _ Hres Hk)
      as (l & _ & (q & mq & m' & Hq & Hmq & Hcq & _)).
    rewrite (Hpage k p Hp) in Hq. injection Hq as <-.
    unfold panel_dict in Hm. congruence.
Qed.

(** X6: the [try] of [OnDrawChart] guards [draw_chart] alone.  When the
    chart data of a series cannot be computed, for instance because
    [float] rejects the marker size, while the chart data of the series
    before it can, the exception leaves the handler; the canvas is not
    drawn and the figure keeps its chart data. *)
Theorem OnDrawChart_raises_coercion_error
    (d : dialog) (ps : list plot_panel) (k : nat) (p : plot_panel)
    (m : dict) (e : exn) :
  series_notebook d = series_pages ps ->
  live d ->
  ps !! k = Some p ->
  panel_dict d p = Some m ->
  chart_series (grid_cursor d) p m = inl e ->
  (∀ j q mq, (j < k)%nat -> ps !! j = Some q -> panel_dict d q = Some mq ->
             ∃ m', chart_series (grid_cursor d) q mq = inr m') ->
  (OnDrawChart d).2 = inl e ∧
  canvas_draws (OnDrawChart d).1 = canvas_draws d ∧
  figure_chart_data (OnDrawChart d).1 = figure_chart_data d.
Proof.
  intros Hpages Hlive Hp Hm Hc Hbefore.
  destruct (eval_chart_data_raises d ps k p m e Hpages Hlive Hp Hm Hc
              Hbefore) as (d' & Hrun & (_ & _ & Hdata & _ & Hcanvas)).
  assert (Hon : OnDrawChart d = (d', inl e)).
  { unfold OnDrawChart, bind at 1. by rewrite Hrun. }
  by rewrite Hon.
Qed.


(** *** New series panels *)




(** X9: the widget panels of a plot panel work on the plot panel's own
    dictionary: a handler of any of the three stores its text where
    [get_figure_code] and [eval_chart_data] read it. *)
Theorem widget_panels_share_series_data
    (given : option loc) (d d1 : dialog) (p : plot_panel)
    (w : widget_panel) (ev : widget_event) :
  PlotPanel_init given d = (d1, inr p) ->
  w ∈ [data_panel p; line_panel p; marker_panel p] ->
  ∃ m,
    panel_dict d1 p = Some m ∧
    panel_dict (handle w ev d1).1 p
    = Some (<[handler_key ev := VStr (handler_text ev)]> m).
Proof.
  intros Hinit Hw.
  destruct (PlotPanel_init_shares given d d1 p Hinit) as (H1 & H2 & H3).
  assert (Hsd : series_data w = pp_series_data p).
  { rewrite !elem_of_cons, elem_of_nil in Hw.
    destruct Hw as [-> | [-> | [-> | []]]]; done. }
  assert (Hm : ∃ m, heap d1 !! pp_series_data p = Some m).
  { unfold PlotPanel_init in Hinit.
    apply bind_run in Hinit as [(d2 & sd & Hnew & Hrun) | (e & _ & [=])].
    unfold new_dict in Hnew. injection Hnew as <- <-.
    apply bind_run in Hrun as [(d3 & [] & Hup & Hret) | (e & _ & [=])].
    injection Hret as <- <-. simpl.
    destruct given as [other |].
    - unfold update in Hup.
      apply bind_run in Hup as [(d4 & m0 & Hr & Hup) | (e & _ & [=])].
      apply bind_run in Hup as [(d5 & o & Hr' & Hup) | (e & _ & [=])].
      injection Hup as <-. simpl. eexists. apply lookup_insert_eq.
    - injection Hup as <-. simpl. eexists. apply lookup_insert_eq. }
  destruct Hm as [m Hm]. exists m. split; [done |].
  unfold panel_dict. rewrite <- Hsd in Hm |- *.
  rewrite (handle_run w ev d1 m Hm). simpl. apply lookup_insert_eq.
Qed.


End More.

(** *** The properties at sample dialogs *)

Section MoreSamples.
#[local] Existing Instance sample_universe.
#[local] Existing Instance sample_external.

Lemma sample_dialog_live text : live (sample_dialog text).
Proof.
  intros n p Hn. rewrite sample_dialog_pages in Hn.
  destruct n as [| [| n]]; [| done | done].
  injection Hn as <-. eexists. apply sample_dialog_panel.
Qed.

Lemma sample_keys_distinct :
  Forall (fun p => NoDup (series_keys p ++ string_keys p ++ float_keys p))
         [sample_panel].
Proof.
  constructor; [| constructor].
  apply (bool_decide_unpack _). by vm_compute.
Qed.

Lemma eval_chart_data_new_objects_witness :
  live (sample_dialog "(1, 2)") ∧
  eval_chart_data (sample_dialog "(1, 2)")
    = ((eval_chart_data (sample_dialog "(1, 2)")).1, inr [1%nat]) ∧
  length [1%nat] = (length (series_notebook (sample_dialog "(1, 2)")) - 1)%nat
  ∧ NoDup [1%nat] ∧
  ∀ l, l ∈ [1%nat] ->
       heap (sample_dialog "(1, 2)") !! l = None ∧
       is_Some (heap (eval_chart_data (sample_dialog "(1, 2)")).1 !! l).
Proof.
  split; [apply sample_dialog_live |].
  split; [exact sample_eval_chart_data |].
  exact (eval_chart_data_new_objects (sample_dialog "(1, 2)") _ [1%nat]
           (sample_dialog_live "(1, 2)") sample_eval_chart_data).
Defined.

Lemma eval_chart_data_contents_witness :
  series_notebook (sample_dialog "(1, 2)") = series_pages [sample_panel] ∧
  live (sample_dialog "(1, 2)") ∧
  Forall (fun p => NoDup (series_keys p ++ string_keys p ++ float_keys p))
         [sample_panel] ∧
  eval_chart_data (sample_dialog "(1, 2)")
    = ((eval_chart_data (sample_dialog "(1, 2)")).1, inr [1%nat]) ∧
  Forall2 (fun p l =>
             ∃ m m',
               panel_dict (sample_dialog "(1, 2)") p = Some m ∧
               heap (eval_chart_data (sample_dialog "(1, 2)")).1 !! l
                 = Some m' ∧
               chart_data_of (grid_cursor (sample_dialog "(1, 2)")) p m m')
          [sample_panel] [1%nat].
Proof.
  split; [apply sample_dialog_pages |].
  split; [apply sample_dialog_live |].
  split; [exact sample_keys_distinct |].
  split; [exact sample_eval_chart_data |].
  exact (eval_chart_data_contents (sample_dialog "(1, 2)") _ [1%nat]
           [sample_panel] (sample_dialog_pages "(1, 2)")
           (sample_dialog_live "(1, 2)") sample_keys_distinct
           sample_eval_chart_data).
Defined.

Lemma sample_bad_dialog_pages :
  series_notebook sample_bad_dialog = series_pages [sample_bad_panel].
Proof. by vm_compute. Qed.

Lemma sample_bad_dialog_panel :
  panel_dict sample_bad_dialog sample_bad_panel
  = Some (sample_series_param ∪ default_series_data).
Proof. by vm_compute. Qed.

Lemma sample_bad_dialog_live : live sample_bad_dialog.
Proof.
  intros n p Hn. rewrite sample_bad_dialog_pages in Hn.
  destruct n as [| [| n]]; [| done | done].
  injection Hn as <-. eexists. apply sample_bad_dialog_panel.
Qed.

Lemma sample_bad_chart_series :
  chart_series (grid_cursor sample_bad_dialog) sample_bad_panel
               (sample_series_param ∪ default_series_data)
  = inl ValueError.
Proof. by vm_compute. Qed.

Lemma OnDrawChart_raises_coercion_error_witness :
  series_notebook sample_bad_dialog = series_pages [sample_bad_panel] ∧
  live sample_bad_dialog ∧
  [sample_bad_panel] !! 0%nat = Some sample_bad_panel ∧
  panel_dict sample_bad_dialog sample_bad_panel
    = Some (sample_series_param ∪ default_series_data) ∧
  chart_series (grid_cursor sample_bad_dialog) sample_bad_panel
               (sample_series_param ∪ default_series_data)
    = inl ValueError ∧
  (OnDrawChart sample_bad_dialog).2 = inl ValueError ∧
  canvas_draws (OnDrawChart sample_bad_dialog).1
    = canvas_draws sample_bad_dialog ∧
  figure_chart_data (OnDrawChart sample_bad_dialog).1
    = figure_chart_data sample_bad_dialog.
Proof.
  split; [exact sample_bad_dialog_pages |].
  split; [exact sample_bad_dialog_live |].
  split; [done |].
  split; [exact sample_bad_dialog_panel |].
  split; [exact sample_bad_chart_series |].
  refine (OnDrawChart_raises_coercion_error sample_bad_dialog
            [sample_bad_panel] 0%nat sample_bad_panel _ ValueError
            sample_bad_dialog_pages sample_bad_dialog_live eq_refl
            sample_bad_dialog_panel sample_bad_chart_series _).
  intros j q mq Hj. lia.
Defined.




Lemma sample_init :
  PlotPanel_init None (Dialog ∅ tt [] [] [] 0)
  = ((PlotPanel_init None (Dialog ∅ tt [] [] [] 0)).1, inr sample_panel).
Proof. by vm_compute. Qed.

Lemma widget_panels_share_series_data_witness :
  PlotPanel_init None (Dialog ∅ tt [] [] [] 0)
    = ((PlotPanel_init None (Dialog ∅ tt [] [] [] 0)).1, inr sample_panel) ∧
  marker_panel sample_panel
    ∈ [data_panel sample_panel; line_panel sample_panel;
       marker_panel sample_panel] ∧
  ∃ m,
    panel_dict (PlotPanel_init None (Dialog ∅ tt [] [] [] 0)).1 sample_panel
      = Some m ∧
    panel_dict
      (handle (marker_panel sample_panel) (EvMarkerStyle "o")
              (PlotPanel_init None (Dialog ∅ tt [] [] [] 0)).1).1
      sample_panel
    = Some (<["marker" := VStr "o"]> m).
Proof.
  assert (Hin : marker_panel sample_panel
                ∈ [data_panel sample_panel; line_panel sample_panel;
                   marker_panel sample_panel]).
  { apply list_elem_of_here. }
  split; [exact sample_init |]. split; [exact Hin |].
  exact (widget_panels_share_series_data None _ _ sample_panel
           (marker_panel sample_panel) (EvMarkerStyle "o")
           sample_init Hin).
Defined.


End MoreSamples.
End DialogMore.

(** ** Reading chart code back *)

Module OpeningFacts.
Import Parser ParserFacts ParserMore Dialog DialogFacts Opening.

(** *** Texts as lists of characters *)

Lemma py_app (a b : string) : py (a +:+ b) = py a ++ py b.
Proof.
  induction a as [| x a IH]; [done |].
  change (x :: py (a +:+ b) = x :: py a ++ py b). by rewrite IH.
Qed.

Lemma drop_last_snoc (s : pystr) c : drop_last (s ++ [c]) = s.
Proof.
  unfold drop_last. rewrite length_app. simpl.
  replace (length s + 1 - 1)%nat with (length s) by lia.
  apply take_app_length.
Qed.

(** *** Stripping text that has nothing to strip *)

Lemma lstrip_id p s : starts_with p s = false -> lstrip p s = s.
Proof. destruct s as [| c s]; [done |]. simpl. by intros ->. Qed.

Lemma strip_chars_id p s :
  starts_with p s = false -> ends_with p s = false -> strip_chars p s = s.
Proof.
  intros Hs He. unfold strip_chars, rstrip. rewrite (lstrip_id p s Hs).
  unfold ends_with in He. by rewrite (lstrip_id p _ He), rev_involutive.
Qed.

Lemma starts_with_trimmed s :
  starts_with trimmed s = false ->
  starts_with isspace s = false ∧
  starts_with (Ascii.eqb "(") s = false ∧
  starts_with (Ascii.eqb ")") s = false.
Proof.
  destruct s as [| c s]; [done |]. cbn [starts_with]. unfold trimmed.
  rewrite !orb_false_iff. tauto.
Qed.

Lemma strip_parens_id s : plain_ends s -> strip_parens s = s.
Proof.
  intros [Hs He]. apply starts_with_trimmed in Hs as (Hs1 & Hs2 & Hs3).
  apply starts_with_trimmed in He as (He1 & He2 & He3).
  unfold strip_parens, strip1, strip.
  rewrite (strip_chars_id isspace s Hs1 He1).
  rewrite (strip_chars_id _ s Hs2 He2).
  exact (strip_chars_id _ s Hs3 He3).
Qed.

Lemma strip_id s : plain_ends s -> strip s = s.
Proof.
  intros [Hs He]. apply starts_with_trimmed in Hs as (Hs1 & _).
  apply starts_with_trimmed in He as (He1 & _).
  exact (strip_chars_id isspace s Hs1 He1).
Qed.

Lemma strip_blank s : strip (" "%char :: s) = strip s.
Proof. done. Qed.

Lemma strip_parens_blank s : strip_parens (" "%char :: s) = strip_parens s.
Proof. done. Qed.

(** Text between two characters that are not stripped. *)
Lemma plain_ends_between (a b : ascii) s :
  trimmed a = false -> trimmed b = false -> plain_ends (a :: s ++ [b]).
Proof.
  intros Ha Hb. split; [done |]. unfold ends_with.
  change (a :: s ++ [b]) with ((a :: s) ++ [b]).
  by rewrite rev_app_distr.
Qed.

(** *** Balanced text inside brackets *)

Lemma balanced_inside tok :
  ∀ d q k rest,
    balanced_from d q tok = true ->
    balanced_from (d + S k) q (tok ++ rest) = balanced_from (S k) None rest.
Proof.
  induction tok as [| c tok IH]; intros d q k rest Hb; simpl in Hb.
  - apply andb_true_iff in Hb as [Hd Hq].
    apply bool_decide_eq_true in Hd as ->.
    by apply bool_decide_eq_true in Hq as ->.
  - simpl. destruct q as [o |].
    + destruct (Ascii.eqb c o); by apply IH.
    + destruct (is_quote c); [by apply IH |].
      destruct (is_open c); [by apply (IH (S d)) |].
      destruct (is_close c).
      { destruct d as [| d']; [done |]. simpl. by apply IH. }
      rewrite (bool_decide_eq_false_2 (d + S k = 0)%nat) by lia.
      rewrite andb_false_r.
      destruct (is_sep c && bool_decide (d = 0%nat)); [done |].
      by apply IH.
Qed.

Lemma balanced_blank t :
  balanced_flat (" "%char :: t) = balanced_flat t.
Proof. done. Qed.

(** A row of balanced tokens, between braces, is one balanced token. *)
Lemma balanced_braces t sts :
  balanced_flat t = true ->
  Forall (fun st => is_sep st.1 = true ∧ balanced_flat st.2 = true) sts ->
  balanced_flat ("{"%char :: sep_join t sts ++ ["}"%char]) = true.
Proof.
  intros Ht Hsts. change (balanced_from 1 None (sep_join t sts ++ ["}"%char])
                          = true).
  revert t Ht. induction Hsts as [| [s t'] sts [Hs Ht'] _ IH]; intros t Ht.
  - simpl. by rewrite (balanced_inside t 0 None 0 _ Ht).
  - simpl. rewrite <- app_assoc.
    rewrite (balanced_inside t 0 None 0 _ Ht).
    simpl in Hs. destruct (sep_plain s Hs) as (Ho & Hcl & Hq & _).
    simpl. rewrite Hq, Ho, Hcl. rewrite andb_false_r. by apply IH.
Qed.

(** *** The text of one series *)

Lemma tail_tokens_ok items :
  Forall (fun kv : pystr * pystr =>
            balanced_flat kv.1 = true ∧ balanced_flat kv.2 = true) items ->
  Forall (fun st => is_sep st.1 = true ∧ balanced_flat st.2 = true)
         (tail_tokens items).
Proof.
  induction 1 as [| [k v] items [Hk Hv] _ IH]; simpl.
  - by repeat constructor.
  - repeat constructor; done.
Qed.

Lemma chunks_of_tail t items :
  chunks_of (t :: map snd (tail_tokens items))
  = strip_parens t
    :: flat_map (fun kv : pystr * pystr =>
                   [strip_parens kv.1; strip_parens kv.2]) items ++ [[]].
Proof.
  revert t. induction items as [| [k v] items IH]; intros t; [done |].
  simpl map. rewrite chunks_of_cons, chunks_of_cons, IH.
  by rewrite !strip_parens_blank.
Qed.

Lemma body_of_nonempty items : items ≠ [] -> body_of items ≠ [].
Proof.
  destruct items as [| [k v] items]; [done |]. intros _. simpl.
  by destruct k.
Qed.

Lemma body_of_parse items :
  items ≠ [] ->
  Forall (fun kv : pystr * pystr =>
            balanced_flat kv.1 = true ∧ balanced_flat kv.2 = true) items ->
  parse_dict_strings (body_of items)
  = (flat_map (fun kv : pystr * pystr =>
                 [strip_parens kv.1; strip_parens kv.2]) items ++ [[]],
     Exhausted).
Proof.
  intros Hne Hitems. pose proof (body_of_nonempty items Hne) as Hbody.
  destruct items as [| [k v] items]; [done |].
  apply Forall_cons in Hitems as [[Hk Hv] Hitems]. simpl in Hk, Hv.
  unfold body_of in *. rewrite parse_sep_join; [| done | done |].
  - f_equal. simpl map. rewrite chunks_of_cons, chunks_of_tail.
    by rewrite strip_parens_blank.
  - constructor; [done | by apply tail_tokens_ok].
Qed.

Lemma body_of_cons k v items :
  body_of ((k, v) :: items)
  = k ++ ":"%char :: " "%char :: v ++ ","%char :: " "%char :: body_of items.
Proof.
  by destruct items as [| [k' v'] items].
Qed.

Lemma body_of_balanced items :
  Forall (fun kv : pystr * pystr =>
            balanced_flat kv.1 = true ∧ balanced_flat kv.2 = true) items ->
  balanced_flat ("{"%char :: body_of items ++ ["}"%char]) = true.
Proof.
  intros Hitems. destruct items as [| [k v] items]; [done |].
  apply Forall_cons in Hitems as [[Hk Hv] Hitems].
  apply balanced_braces; [done |].
  constructor; [done | by apply tail_tokens_ok].
Qed.

(** *** Every second item *)

Lemma evens_cons {A} (x y : A) l : evens (x :: y :: l) = x :: evens l.
Proof. done. Qed.

Lemma zip_evens_odds {A} (f g : A -> pystr) (items : list A) (x : pystr) :
  zip (evens (flat_map (fun kv => [f kv; g kv]) items ++ [x]))
      (odds (flat_map (fun kv => [f kv; g kv]) items ++ [x]))
  = map (fun kv => (f kv, g kv)) items.
Proof.
  induction items as [| kv items IH]; [done |].
  simpl flat_map. cbn [app]. rewrite evens_cons. unfold odds at 1.
  destruct (flat_map (fun kv => [f kv; g kv]) items ++ [x])
    as [| y l] eqn:Hl.
  { by destruct (flat_map (fun kv => [f kv; g kv]) items). }
  rewrite evens_cons. simpl. f_equal. exact IH.
Qed.

(** *** What [__init__] needs of chart code *)

Section Reading.
Context {K : Type} `{Countable K} (literal_eval : pystr -> exn + K).

Lemma list_of_parse code chunks :
  list_of (parse_dict_strings code) = inr chunks ->
  code ≠ [] ∧ chunks ≠ [] ∧ chunks = (parse_dict_strings code).1.
Proof.
  intros Hrun. destruct code as [| c code]; [done |].
  split; [done |].
  destruct (parse_trace_loop (c :: code)) as (st & ys & y & _ & Htrace);
    [done |].
  unfold list_of, parse_dict_strings in *. cbn [fst snd] in *.
  rewrite (parse_outcome (c :: code)) in Hrun by done.
  injection Hrun as <-. split; [| done].
  rewrite Htrace, map_app. by destruct (map y_text ys).
Qed.

Lemma series_params_inv l :
  ∀ acc r,
    series_params literal_eval l acc = inr r ->
    length r = (length acc + length l)%nat ∧
    Forall (fun s => ∃ sp, series_param literal_eval s = inr sp) l.
Proof.
  induction l as [| s l IH]; intros acc r Hrun; simpl in Hrun.
  - injection Hrun as <-. split; [simpl; lia | constructor].
  - destruct (series_param literal_eval s) as [e | sp] eqn:Hsp; [done |].
    apply IH in Hrun as [Hlen Hall]. split.
    + rewrite Hlen, length_app. simpl. lia.
    + constructor; [by exists sp | done].
Qed.

Lemma series_param_length s sp :
  series_param literal_eval s = inr sp -> (3 <= length s)%nat.
Proof.
  unfold series_param. intros Hrun.
  destruct (list_of (parse_dict_strings (slice s 1 (length s - 1))))
    as [e | chunks] eqn:Hparse; [done |].
  apply list_of_parse in Hparse as (Hne & _).
  destruct (decide (3 <= length s)%nat) as [| Hshort]; [done |].
  exfalso. apply Hne. unfold slice.
  replace (length s - 1 - 1)%nat with 0%nat by lia. done.
Qed.

Lemma code_param_empty code rest :
  after_first "(" code = Some rest ->
  (length rest <= 1)%nat ->
  code_param literal_eval code = inl UnboundLocalError.
Proof.
  intros Hrest Hlen. unfold code_param. rewrite Hrest.
  unfold drop_last. replace (length rest - 1)%nat with 0%nat by lia.
  done.
Qed.

(** X11: when [__init__] can read chart code, the code has a ["("], the
    text behind it has one chunk for every series dictionary, there is at
    least one series, and the text of every series has three characters
    or more: code without series, and code with an empty dictionary
    display, make [__init__] raise. *)
Theorem code_param_has_series (code : pystr) (sps : list (gmap K pystr)) :
  code_param literal_eval code = inr sps ->
  ∃ rest,
    after_first "(" code = Some rest ∧
    sps ≠ [] ∧
    length sps = length (parse_dict_strings (drop_last rest)).1 ∧
    Forall (fun s => (3 <= length s)%nat)
           (parse_dict_strings (drop_last rest)).1.
Proof.
  unfold code_param. intros Hrun.
  destruct (after_first "(" code) as [rest |]; [| done].
  exists rest. split; [done |].
  destruct (list_of (parse_dict_strings (drop_last rest)))
    as [e | chunks] eqn:Hparse; [done |].
  apply list_of_parse in Hparse as (_ & Hne & ->).
  apply series_params_inv in Hrun as [Hlen Hall].
  split; [| split; [done |]].
  - intros ->. by destruct (parse_dict_strings (drop_last rest)).1.
  - eapply Forall_impl; [exact Hall |].
    intros s [sp Hsp]. by eapply series_param_length.
Qed.

End Reading.

(** *** The dictionary of one series *)

Section RoundTrip.
Context {U : Universe} {E : External}.
Context (literal_eval : pystr -> exn + string).

Lemma dict_of_run {A} (kt vt : A -> pystr) (key : A -> string) items :
  ∀ acc,
    Forall (fun kv => literal_eval (kt kv) = inr (key kv)) items ->
    dict_of literal_eval (map (fun kv => (kt kv, vt kv)) items) acc
    = inr (fold_left (fun m kv => <[key kv := vt kv]> m) items acc).
Proof.
  induction items as [| kv items IH]; intros acc Hlit; [done |].
  apply Forall_cons in Hlit as [Hkv Hlit]. simpl. rewrite Hkv.
  by apply IH.
Qed.

Lemma fold_insert_other {A} (vt : A -> pystr) (key : A -> string) items k :
  ∀ acc : gmap string pystr,
    k ∉ map key items ->
    fold_left (fun m kv => <[key kv := vt kv]> m) items acc !! k = acc !! k.
Proof.
  induction items as [| kv items IH]; intros acc Hk; [done |].
  simpl in *. apply not_elem_of_cons in Hk as [Hne Hk].
  rewrite IH by done. by apply lookup_insert_ne.
Qed.

Lemma fold_insert_lookup {A} (vt : A -> pystr) (key : A -> string)
    items kv :
  ∀ acc : gmap string pystr,
    NoDup (map key items) ->
    kv ∈ items ->
    fold_left (fun m kv => <[key kv := vt kv]> m) items acc !! key kv
    = Some (vt kv).
Proof.
  induction items as [| x items IH]; intros acc Hnd Hkv.
  { by apply elem_of_nil in Hkv. }
  simpl in *. apply NoDup_cons in Hnd as [Hx Hnd].
  apply elem_of_cons in Hkv as [-> | Hkv]; [| by apply IH].
  rewrite fold_insert_other by done. apply lookup_insert_eq.
Qed.

Lemma fold_insert_dom {A} (vt : A -> pystr) (key : A -> string) items :
  ∀ acc : gmap string pystr,
    dom (fold_left (fun m kv => <[key kv := vt kv]> m) items acc)
    = dom acc ∪ list_to_set (map key items).
Proof.
  induction items as [| x items IH]; intros acc; simpl.
  - by rewrite (right_id_L ∅ (∪)).
  - rewrite IH, dom_insert_L.
    rewrite (comm_L (∪) {[key x]} (dom acc)). by rewrite (assoc_L (∪)).
Qed.

Lemma item_code_text keys key s :
  item_code keys key (VStr s)
  = inr ("'" +:+ key +:+ "': " +:+ value_text keys key s +:+ ", ").
Proof.
  unfold item_code, value_text. by destruct (bool_decide (key ∈ keys)).
Qed.

Lemma py_item_code keys key s :
  ∃ c, item_code keys key (VStr s) = inr c ∧
       py c = py (key_text key) ++ ":"%char :: " "%char
              :: py (value_text keys key s) ++ [","%char; " "%char].
Proof.
  eexists. split; [apply item_code_text |].
  unfold key_text. rewrite !py_app. simpl.
  by rewrite <- !app_assoc.
Qed.

Lemma py_items_code keys items :
  ∀ acc body,
    Forall (fun kv : string * pyval => ∃ s, kv.2 = VStr s) items ->
    items_code keys items acc = inr body ->
    py body = py acc ++ body_of (map (written keys) items).
Proof.
  induction items as [| [key v] items IH]; intros acc body Hstr Hbody.
  - simpl in *. injection Hbody as <-. by rewrite app_nil_r.
  - apply Forall_cons in Hstr as [[s Hs] Hstr]. simpl in Hs. subst v.
    simpl in Hbody.
    destruct (py_item_code keys key s) as (c & Hc & Hpy).
    rewrite Hc in Hbody. rewrite (IH _ _ Hstr Hbody).
    rewrite py_app, Hpy. simpl map. unfold written at 2. simpl fst.
    simpl snd. rewrite body_of_cons. unfold str_of.
    rewrite <- !app_assoc. simpl. by rewrite <- !app_assoc.
Qed.

Lemma key_text_plain key : plain_ends (py (key_text key)).
Proof.
  unfold key_text. rewrite !py_app.
  by apply (plain_ends_between "'" "'" (py key)).
Qed.

Lemma slice_inner (b : pystr) (x y : ascii) :
  slice (x :: b ++ [y]) 1 (length (x :: b ++ [y]) - 1) = b.
Proof.
  unfold slice. simpl. rewrite length_app. simpl.
  replace (length b + 1 - 0 - 1)%nat with (length b) by lia.
  apply take_app_length.
Qed.

Lemma series_param_written keys (m : dict) body :
  writable literal_eval keys m ->
  items_code keys (map_to_list m) "" = inr body ->
  ∃ sp, series_param literal_eval (py ("{" +:+ body +:+ "}")) = inr sp ∧
        read_back keys m sp.
Proof.
  intros (Hne & Hstr & Hkeys & Hvals) Hbody.
  pose proof (all_strings_items m Hstr) as Hitems.
  pose proof (py_items_code keys _ _ _ Hitems Hbody) as Hpy.
  simpl in Hpy.
  set (items := map (written keys) (map_to_list m)) in *.
  assert (Hne' : items ≠ []).
  { unfold items. intros Hnil%fmap_nil_inv. by apply map_to_list_empty_iff in Hnil. }
  assert (Hbal : Forall (fun kv : pystr * pystr =>
                   balanced_flat kv.1 = true ∧ balanced_flat kv.2 = true)
                   items).
  { unfold items. apply Forall_fmap, Forall_forall.
    intros [key v] Hkv. apply elem_of_map_to_list in Hkv.
    destruct (Hstr key v Hkv) as [s ->]. simpl. split.
    - by apply Hkeys.
    - by apply Hvals. }
  rewrite !py_app, Hpy.
  change (py "{" ++ body_of items ++ py "}")
    with ("{"%char :: body_of items ++ ["}"%char]).
  unfold series_param. rewrite slice_inner.
  rewrite body_of_parse by done. unfold list_of. cbn [fst snd].
  rewrite zip_evens_odds. unfold items. rewrite map_map.
  rewrite (dict_of_run (fun kv => strip_parens (written keys kv).1)
             (fun kv => strip_parens (written keys kv).2) fst).
  2: { apply Forall_forall. intros [key v] Hkv.
       apply elem_of_map_to_list in Hkv. simpl.
       rewrite strip_parens_id by apply key_text_plain.
       by apply Hkeys. }
  eexists. split; [reflexivity |]. split.
  - rewrite fold_insert_dom, dom_empty_L, (left_id_L ∅ (∪)).
    apply set_eq. intros key.
    rewrite elem_of_list_to_set, elem_of_dom, list_elem_of_fmap.
    split.
    + intros ([k v] & -> & Hkv). apply elem_of_map_to_list in Hkv.
      by exists v.
    + intros [v Hv]. exists (key, v). split; [done |].
      by apply elem_of_map_to_list.
  - intros key s Hs.
    apply (fold_insert_lookup
             (fun kv => strip_parens (written keys kv).2) fst
             (map_to_list m) (key, VStr s) ∅).
    + apply NoDup_fst_map_to_list.
    + by apply elem_of_map_to_list.
Qed.

(** *** The text of all series *)

Lemma sep_join_cons_head x t sts :
  sep_join (x :: t) sts = x :: sep_join t sts.
Proof. by destruct sts as [| [s t'] sts]. Qed.

Lemma py_listing lit lits :
  py (lit +:+ listing lits)
  = sep_join (py lit)
             (map (fun l => (","%char, " "%char :: py l)) lits).
Proof.
  revert lit. induction lits as [| l lits IH]; intros lit.
  - simpl. rewrite py_app. apply app_nil_r.
  - rewrite py_app.
    change (listing (l :: lits)) with (", " +:+ l +:+ listing lits).
    rewrite py_app, IH. simpl. by rewrite sep_join_cons_head.
Qed.

Lemma chunks_of_strip toks :
  Forall (fun t => strip_parens t = strip t) toks ->
  chunks_of toks = map strip toks.
Proof.
  induction toks as [| t [| t' toks] IH]; intros Htoks; [done | done |].
  apply Forall_cons in Htoks as [Ht Htoks].
  rewrite chunks_of_cons, Ht, (IH Htoks). done.
Qed.

Lemma chunks_of_braced (x : pystr) (xs : list pystr) :
  plain_ends x ->
  Forall plain_ends xs ->
  chunks_of (x :: map (cons " "%char) xs) = x :: xs.
Proof.
  intros Hx Hxs. rewrite chunks_of_strip.
  - simpl. rewrite strip_id by done. f_equal.
    rewrite map_map. rewrite <- (map_id xs) at 2.
    apply map_ext_Forall. eapply Forall_impl; [exact Hxs |].
    intros y Hy. by rewrite strip_blank, strip_id.
  - constructor.
    + by rewrite strip_parens_id, strip_id.
    + apply Forall_fmap. eapply Forall_impl; [exact Hxs |].
      intros y Hy. simpl.
      by rewrite strip_parens_blank, strip_blank, strip_parens_id, strip_id.
Qed.

Lemma series_params_run xs : ∀ acc sps,
  Forall2 (fun x sp => series_param literal_eval x = inr sp) xs sps ->
  series_params literal_eval xs acc = inr (acc ++ sps).
Proof.
  induction xs as [| x xs IH]; intros acc sps Hxs.
  - apply Forall2_nil_inv_l in Hxs as ->. by rewrite app_nil_r.
  - apply Forall2_cons_inv_l in Hxs as (sp & sps' & Hsp & Hxs & ->).
    simpl. rewrite Hsp, (IH _ _ Hxs). by rewrite <- app_assoc.
Qed.

Lemma Forall2_choose {A B C} (P : B -> C -> Prop) (Q : A -> C -> Prop)
    (R : B -> Prop) (xs : list A) (ys : list B) :
  Forall2 (fun x y => R y ∧ ∃ z, P y z ∧ Q x z) xs ys ->
  ∃ zs, Forall2 P ys zs ∧ Forall2 Q xs zs ∧ Forall R ys.
Proof.
  induction 1 as [| x y xs ys (Hr & z & Hp & Hq) _ (zs & Hps & Hqs & Hrs)].
  - exists []. by repeat constructor.
  - exists (z :: zs). by repeat constructor.
Qed.

Lemma series_literal_readable (d : dialog) (p : plot_panel) lit :
  (∃ m, panel_dict d p = Some m ∧ writable literal_eval (series_keys p) m) ->
  series_literal d p lit ->
  readable_literal lit ∧
  ∃ sp, series_param literal_eval (py lit) = inr sp ∧
        ∃ m, panel_dict d p = Some m ∧ read_back (series_keys p) m sp.
Proof.
  intros (m & Hm & Hw) (m' & body & Hm' & Hbody & ->).
  rewrite Hm in Hm'. injection Hm' as <-.
  destruct (series_param_written _ m body Hw Hbody) as (sp & Hsp & Hrb).
  split; [| by exists sp; split; [| exists m]].
  destruct Hw as (Hne & Hstr & Hkeys & Hvals).
  pose proof (py_items_code (series_keys p) _ _ _
                (all_strings_items m Hstr) Hbody) as Hpy.
  simpl in Hpy. unfold readable_literal. rewrite !py_app, Hpy.
  change (py "{" ++ ?b ++ py "}") with ("{"%char :: b ++ ["}"%char]).
  split; [done |].
  split; [| by apply (plain_ends_between "{" "}")].
  apply body_of_balanced. apply Forall_fmap, Forall_forall.
  intros [key v] Hkv. apply elem_of_map_to_list in Hkv.
  destruct (Hstr key v Hkv) as [s ->]. simpl. split.
  - by apply Hkeys.
  - by apply Hvals.
Qed.

(** X12: chart code written by [get_figure_code] is read back by
    [__init__] series by series.  For a dialog with at least one series
    whose dictionaries can be written and read, the code has one
    dictionary for every series panel, with the panel's keys; under a key
    it has the text that was written for the panel's value, after
    [strip()], [strip("(")] and [strip(")")]. *)
Theorem reopen_generated_code (d : dialog) (ps : list plot_panel) :
  ps ≠ [] ->
  series_notebook d = series_pages ps ->
  Forall (fun p => ∃ m, panel_dict d p = Some m
                        ∧ writable literal_eval (series_keys p) m) ps ->
  ∃ code sps,
    get_figure_code d = (d, inr code) ∧
    code_param literal_eval (py code) = inr sps ∧
    Forall2 (fun p sp => ∃ m, panel_dict d p = Some m
                              ∧ read_back (series_keys p) m sp)
            ps sps.
Proof.
  intros Hne Hpages Hdicts.
  destruct (figure_series_form d ps 0 "") as (lits & Hlits & Hrun).
  { intros k p Hk. rewrite Hpages. unfold series_pages. simpl.
    apply lookup_app_l_Some. by rewrite list_lookup_fmap, Hk. }
  { eapply Forall_impl; [exact Hdicts |].
    intros p (m & Hm & (_ & Hstr & _)). by exists m. }
  assert (Hall : Forall2 (fun p lit =>
            readable_literal lit ∧
            ∃ sp, (fun lit sp => series_param literal_eval (py lit) = inr sp)
                    lit sp ∧
                  (fun p sp => ∃ m, panel_dict d p = Some m
                                    ∧ read_back (series_keys p) m sp) p sp)
            ps lits).
  { apply Forall2_same_length_lookup. split; [by eapply Forall2_length |].
    intros k p lit Hp Hlit. apply series_literal_readable.
    - rewrite Forall_forall in Hdicts. apply Hdicts.
      by apply list_elem_of_lookup_2 in Hp.
    - by apply (Forall2_lookup_lr _ _ _ _ _ _ Hlits Hp Hlit). }
  apply Forall2_choose in Hall as (sps & Hsps & Hback & Hread).
  destruct lits as [| lit lits].
  { apply Forall2_length in Hlits. by destruct ps. }
  exists ("charts.ChartFigure(" +:+ (lit +:+ listing lits) +:+ ")"), sps.
  split; [| split; [| done]].
  - unfold get_figure_code, bind at 1, no_series.
    rewrite Hpages. unfold series_pages.
    rewrite length_app, length_map. simpl length. unfold xrange.
    replace (Z.to_nat (Z.of_nat (length ps + 1) - 1)) with (length ps)
      by lia.
    unfold bind. by rewrite Hrun.
  - rewrite (py_app "charts.ChartFigure("), (py_app _ ")").
    change (py "charts.ChartFigure(" ++ ?x ++ py ")")
      with (py "charts.ChartFigure(" ++ x ++ [")"%char]).
    unfold code_param.
    change (after_first "(" (py "charts.ChartFigure(" ++ ?x))
      with (Some x).
    lazy iota beta. rewrite drop_last_snoc, py_listing.
    apply Forall_cons in Hread as [(Hnil & Hb & Hp) Hread].
    rewrite parse_sep_join.
    + unfold list_of. cbn [fst snd].
      assert (Hmap : map snd (map (fun l => (","%char, " "%char :: py l))
                                  lits)
                     = map (cons " "%char) (map py lits))
        by (by rewrite !map_map).
      rewrite Hmap, chunks_of_braced.
      * apply (series_params_run (py lit :: map py lits) [] sps).
        apply Forall2_cons_inv_l in Hsps as (sp & sps' & Hsp & Hsps & ->).
        constructor; [done |]. by apply Forall2_fmap_l.
      * done.
      * apply Forall_fmap. eapply Forall_impl; [exact Hread |].
        by intros l (_ & _ & Hl).
    + destruct (py lit) as [| c l] eqn:Hl; [done |].
      by destruct (map _ lits) as [| [? ?] ?].
    + done.
    + apply Forall_fmap. eapply Forall_impl; [exact Hread |].
      intros l (_ & Hl & _). simpl. by rewrite balanced_blank.
Qed.

(** *** Values that come back as they were *)









(** X14: a dialog without series writes chart code that [__init__]
    cannot read: the text between the parentheses is empty, and the
    generator raises on it. *)
Theorem reopen_without_series (d : dialog) :
  series_notebook d = series_pages [] ->
  ∃ code,
    get_figure_code d = (d, inr code) ∧
    code_param literal_eval (py code) = inl UnboundLocalError.
Proof.
  intros Hpages. exists "charts.ChartFigure()". split.
  - unfold get_figure_code, bind at 1, no_series. by rewrite Hpages.
  - by apply (code_param_empty literal_eval _ [")"%char]).
Qed.

(** A dictionary all of whose items pass the test can be written. *)
Lemma writable_check (keys : list string) (m : dict) :
  m ≠ ∅ ->
  map_Forall (fun key v => writable_item literal_eval keys key v = true) m ->
  writable literal_eval keys m.
Proof.
  intros Hne Hall. split; [done |]. split; [| split].
  - intros key v Hv. specialize (Hall key v Hv). destruct v; try done.
    by eexists.
  - intros key [v Hv]. specialize (Hall key v Hv).
    destruct v as [s | |]; try done. unfold writable_item in Hall.
    apply andb_true_iff in Hall as [Hall _].
    apply andb_true_iff in Hall as [Hlit Hbal].
    by apply bool_decide_eq_true in Hlit.
  - intros key s Hs. specialize (Hall key _ Hs). unfold writable_item in Hall.
    by apply andb_true_iff in Hall as [_ Hall].
Qed.

End RoundTrip.

(** *** The properties at sample code *)

Section OpeningSamples.
#[local] Existing Instance sample_universe.
#[local] Existing Instance sample_external.

Lemma sample_writable :
  Forall (fun p => ∃ m, panel_dict (sample_dialog "(1, 2)") p = Some m
                        ∧ writable sample_literal_eval (series_keys p) m)
         [sample_panel].
Proof.
  constructor; [| constructor].
  exists (sample_series_data "(1, 2)").
  split; [apply sample_dialog_panel |].
  apply writable_check.
  - intros Hm. by apply (f_equal (fun m => m !! "xdata")) in Hm.
  - apply (bool_decide_unpack _). by vm_compute.
Qed.

Lemma reopen_generated_code_witness :
  [sample_panel] ≠ [] ∧
  series_notebook (sample_dialog "(1, 2)") = series_pages [sample_panel] ∧
  Forall (fun p => ∃ m, panel_dict (sample_dialog "(1, 2)") p = Some m
                        ∧ writable sample_literal_eval (series_keys p) m)
         [sample_panel] ∧
  ∃ code sps,
    get_figure_code (sample_dialog "(1, 2)")
      = (sample_dialog "(1, 2)", inr code) ∧
    code_param sample_literal_eval (py code) = inr sps ∧
    Forall2 (fun p sp =>
               ∃ m, panel_dict (sample_dialog "(1, 2)") p = Some m
                    ∧ read_back (series_keys p) m sp)
            [sample_panel] sps.
Proof.
  split; [done |]. split; [apply sample_dialog_pages |].
  split; [exact sample_writable |].
  exact (reopen_generated_code sample_literal_eval (sample_dialog "(1, 2)")
           [sample_panel] ltac:(done) (sample_dialog_pages "(1, 2)")
           sample_writable).
Defined.


(** A value in parentheses loses them on the way: the default colour
    text comes back without. *)
Example default_colour_read_back :
  item_code ["color"] "color" (VStr "(0, 0, 0)")
  = inr "'color': (0, 0, 0), " ∧
  strip_parens (py "(0, 0, 0)") = py "0, 0, 0".
Proof. by vm_compute. Qed.

Lemma sample_code_param :
  code_param sample_literal_eval (py "charts.ChartFigure({'a': (1), })")
  = inr [<["a" := py "1"]> ∅].
Proof. by vm_compute. Qed.

Lemma code_param_has_series_witness :
  code_param sample_literal_eval (py "charts.ChartFigure({'a': (1), })")
    = inr [<["a" := py "1"]> ∅] ∧
  ∃ rest,
    after_first "(" (py "charts.ChartFigure({'a': (1), })") = Some rest ∧
    [<["a" := py "1"]> ∅] ≠ ([] : list (gmap string pystr)) ∧
    length [<["a" := py "1"]> (∅ : gmap string pystr)]
    = length (parse_dict_strings (drop_last rest)).1 ∧
    Forall (fun s => (3 <= length s)%nat)
           (parse_dict_strings (drop_last rest)).1.
Proof.
  split; [exact sample_code_param |].
  exact (code_param_has_series sample_literal_eval _ _ sample_code_param).
Defined.

Lemma reopen_without_series_witness :
  series_notebook sample_empty_dialog = series_pages [] ∧
  ∃ code,
    get_figure_code sample_empty_dialog = (sample_empty_dialog, inr code) ∧
    code_param sample_literal_eval (py code) = inl UnboundLocalError.
Proof.
  split; [done |].
  exact (reopen_without_series sample_literal_eval sample_empty_dialog
           eq_refl).
Defined.

End OpeningSamples.

End OpeningFacts.

(** ** The brush style table *)

Module ConfigFacts.
Import Config.

(** C10: the table is written with nine items, but all nine keys are the
    empty string: the dictionary has this one key, bound to the constant
    that is listed last, and no brush style name finds anything in it. *)
Theorem brush_styles_single_key :
  length brush_styles_items = 9%nat ∧
  Forall (fun kv => kv.1 = "") brush_styles_items ∧
  brush_styles = {[ "" := VERTICAL_HATCH ]} ∧
  dom brush_styles = {[ "" ]} ∧
  size brush_styles = 1%nat ∧
  ∀ name : string, name ≠ "" -> brush_styles !! name = None.
Proof.
  assert (Heq : brush_styles = {[ "" := VERTICAL_HATCH ]}).
  { unfold brush_styles, dict_display, brush_styles_items. simpl.
    rewrite !insert_insert_eq. apply insert_empty. }
  split; [done |]. split; [by repeat constructor |]. split; [done |].
  rewrite Heq. split; [apply dom_singleton_L |].
  split; [apply map_size_singleton |].
  intros name Hname. by apply lookup_singleton_ne.
Qed.

End ConfigFacts.

(** ** The font attributes *)

Module ConfigMore.
Import Config.

(** *** Slices of strings *)

Lemma str_length_app (a b : string) :
  String.length (a +:+ b) = (String.length a + String.length b)%nat.
Proof.
  induction a as [| c a IH]; [done |].
  change (S (String.length (a +:+ b))
          = S (String.length a + String.length b)).
  by rewrite IH.
Qed.

Lemma str_from_app (a b : string) : str_from (String.length a) (a +:+ b) = b.
Proof.
  induction a as [| c a IH]; [by destruct b |].
  change (str_from (String.length a) (a +:+ b) = b). exact IH.
Qed.

Lemma str_upto_app (a b : string) : str_upto (String.length a) (a +:+ b) = a.
Proof.
  induction a as [| c a IH]; [by destruct b |].
  change (String c (str_upto (String.length a) (a +:+ b)) = String c a).
  by rewrite IH.
Qed.

Lemma str_upto_from (n : nat) (s : string) :
  str_upto n s +:+ str_from n s = s.
Proof.
  revert n. induction s as [| c s IH]; intros [| n]; try done.
  change (String c (str_upto n s +:+ str_from n s) = String c s).
  by rewrite IH.
Qed.

Lemma last_two_app (n : string) : last_two (n +:+ "pt") = "pt".
Proof.
  unfold last_two. rewrite str_length_app.
  replace (String.length n + String.length "pt" - 2)%nat
    with (String.length n) by (simpl; lia).
  apply str_from_app.
Qed.

Lemma but_last_two_app (n : string) : but_last_two (n +:+ "pt") = n.
Proof.
  unfold but_last_two. rewrite str_length_app.
  replace (String.length n + String.length "pt" - 2)%nat
    with (String.length n) by (simpl; lia).
  apply str_upto_app.
Qed.

Lemma last_two_pt (s : string) :
  String.eqb (last_two s) "pt" = true ↔ ∃ n, s = n +:+ "pt".
Proof.
  split.
  - intros Hpt%String.eqb_eq. exists (but_last_two s).
    unfold last_two, but_last_two in *.
    by rewrite <- Hpt, str_upto_from.
  - intros [n ->]. by rewrite last_two_app, String.eqb_refl.
Qed.

(** *** Membership and lookup in the tables *)

Lemma str_in_spec (x : string) (xs : list string) :
  str_in x xs = true ↔ x ∈ xs.
Proof.
  unfold str_in. induction xs as [| y xs IH]; simpl.
  - split; [done | by intros ?%elem_of_nil].
  - rewrite orb_true_iff, IH, elem_of_cons, String.eqb_eq. done.
Qed.

Lemma convert_constant_spec
    (pairs : list (string * wx_font_constant)) (text : string) :
  NoDup (map fst pairs) ->
  if str_in text (map fst pairs)
  then ∃ c, (text, c) ∈ pairs ∧
            convert_constant pairs text = inr (FontConstant c)
  else convert_constant pairs text = inl KeyError.
Proof.
  intros Hnd. unfold convert_constant, dict_getitem, dict_of_pairs.
  assert (Hfold : ∀ (l : list (string * wx_font_constant))
                    (acc : gmap string wx_font_constant),
    NoDup (map fst l) ->
    fold_left (fun m kv => <[kv.1 := kv.2]> m) l acc !! text
    = match list_find (fun kv => kv.1 = text) l with
      | Some (_, kv) => Some kv.2
      | None => acc !! text
      end).
  { induction l as [| [k v] l IHl]; intros acc Hl; [done |].
    apply NoDup_cons in Hl as [Hk Hl]. simpl in *.
    rewrite (IHl _ Hl). destruct (decide (k = text)) as [-> | Hne].
    - destruct (list_find _ l) as [[j [k' v']] |] eqn:Hfind.
      + apply list_find_Some in Hfind as (Hj & Hk' & _). simpl in Hk'.
        subst k'. exfalso. apply Hk. apply list_elem_of_fmap.
        exists (text, v'). split; [done |].
        by eapply list_elem_of_lookup_2.
      + simpl. apply lookup_insert_eq.
    - destruct (list_find _ l) as [[j [k' v']] |]; simpl; [done |].
      by apply lookup_insert_ne. }
  rewrite (Hfold pairs ∅ Hnd).
  destruct (str_in text (map fst pairs)) eqn:Hin.
  - apply str_in_spec, list_elem_of_fmap in Hin as ([k v] & -> & Hkv).
    destruct (list_find _ pairs) as [[j [k' v']] |] eqn:Hfind.
    + apply list_find_Some in Hfind as (Hj & Hk' & _). simpl in *.
      subst k'. exists v'. split; [| done].
      by eapply list_elem_of_lookup_2.
    + apply list_find_None in Hfind. rewrite Forall_forall in Hfind.
      by specialize (Hfind _ Hkv).
  - destruct (list_find _ pairs) as [[j [k' v']] |] eqn:Hfind; [| done].
    apply list_find_Some in Hfind as (Hj & Hk' & _). simpl in Hk'.
    subst k'. apply list_elem_of_lookup_2 in Hj.
    assert (Htrue : str_in text (map fst pairs) = true).
    { apply str_in_spec, list_elem_of_fmap. by exists (text, v'). }
    congruence.
Qed.

Section FontFacts.
Variable int : string -> exn + Z.

(** X15: the two font size entries accept exactly the texts that end in
    ["pt"], and hand the text before the ["pt"], all of it, to [int]; so
    the text ["pt"] alone is accepted and converted by [int] of the empty
    string. *)
Theorem font_size_functions (tag : string) :
  tag ∈ ["font-size"; "font-size-complex"] ->
  ∃ a,
    font_attributes int !! tag = Some a ∧
    (∀ size, assert_func a size = true ↔ ∃ n, size = n +:+ "pt") ∧
    ∀ n, convert_func a (n +:+ "pt")
         = match int n with
           | inr k => inr (FontInt k)
           | inl e => inl e
           end.
Proof.
  rewrite !elem_of_cons, elem_of_nil. intros [-> | [-> | []]].
  - eexists. split; [reflexivity |]. simpl. split.
    + intros size. apply last_two_pt.
    + intros n. by rewrite but_last_two_app.
  - eexists. split; [reflexivity |]. simpl. split.
    + intros size. apply last_two_pt.
    + intros n. by rewrite but_last_two_app.
Qed.

(** X16: in the font style and font weight entries the two functions
    agree: on a text that [assert_func] accepts, [convert_func] returns the
    constant that the table of the entry lists for it, and on every other
    text it raises a [KeyError]. *)
Theorem font_constant_functions (tag : string) :
  tag ∈ ["font-style"; "font-style-complex";
         "font-weight"; "font-weight-complex"] ->
  ∃ a pairs,
    font_attributes int !! tag = Some a ∧
    pairs = (if bool_decide (tag ∈ ["font-style"; "font-style-complex"])
             then font_styles else font_weight_styles) ∧
    ∀ text,
      if assert_func a text
      then ∃ c, (text, c) ∈ pairs ∧ convert_func a text = inr (FontConstant c)
      else convert_func a text = inl KeyError.
Proof.
  rewrite !elem_of_cons, elem_of_nil.
  intros [-> | [-> | [-> | [-> | []]]]].
  - eexists _, _. split; [reflexivity |]. split; [reflexivity |].
    intros text. apply (convert_constant_spec font_styles).
    apply (bool_decide_unpack _). by vm_compute.
  - eexists _, _. split; [reflexivity |]. split; [reflexivity |].
    intros text. apply (convert_constant_spec font_styles).
    apply (bool_decide_unpack _). by vm_compute.
  - eexists _, _. split; [reflexivity |]. split; [reflexivity |].
    intros text. apply (convert_constant_spec font_weight_styles).
    apply (bool_decide_unpack _). by vm_compute.
  - eexists _, _. split; [reflexivity |]. split; [reflexivity |].
    intros text. apply (convert_constant_spec font_weight_styles).
    apply (bool_decide_unpack _). by vm_compute.
Qed.

End FontFacts.

(** *** The properties at sample tags *)

Lemma font_size_functions_witness :
  "font-size" ∈ ["font-size"; "font-size-complex"] ∧
  ∃ a,
    font_attributes (fun _ => inl ValueError) !! "font-size" = Some a ∧
    (∀ size, assert_func a size = true ↔ ∃ n, size = n +:+ "pt") ∧
    ∀ n, convert_func a (n +:+ "pt") = inl ValueError.
Proof.
  assert (Htag : "font-size" ∈ ["font-size"; "font-size-complex"])
    by apply list_elem_of_here.
  split; [exact Htag |].
  exact (font_size_functions (fun _ => inl ValueError) "font-size" Htag).
Defined.

Lemma font_constant_functions_witness :
  "font-weight" ∈ ["font-style"; "font-style-complex";
                   "font-weight"; "font-weight-complex"] ∧
  ∃ a pairs,
    font_attributes (fun _ => inl ValueError) !! "font-weight" = Some a ∧
    pairs = font_weight_styles ∧
    ∀ text,
      if assert_func a text
      then ∃ c, (text, c) ∈ pairs ∧ convert_func a text = inr (FontConstant c)
      else convert_func a text = inl KeyError.
Proof.
  assert (Htag : "font-weight" ∈ ["font-style"; "font-style-complex";
                                  "font-weight"; "font-weight-complex"]).
  { do 2 apply list_elem_of_further. apply list_elem_of_here. }
  split; [exact Htag |].
  exact (font_constant_functions (fun _ => inl ValueError) "font-weight"
           Htag).
Defined.

End ConfigMore.
